(** * into.regex: the regular-expression dispatcher

    A shallow embedding of [src/into/regex.py]: the function [normalize] and
    the class [RegexDispatcher] with its methods [__init__], [add],
    [register], [dispatch], [dispatch_iter] and [__call__].

    Python values are modelled as follows.
    - [str] is [string]; [str.lstrip] and [str.rstrip] with a one-character
      argument are written out.
    - [dict] is an association list in insertion order without duplicate
      keys (module [PyDict]); assigning to a key that is present keeps the
      key's position, as CPython 3.7+ does.
    - a raised exception is the [Raise] branch of [result]; methods of the
      dispatcher run in a state-and-exception monad [M] over the object's
      fields.
    - [re.match], which belongs to the Python standard library and not to
      this repository, is a parameter of the dispatcher section; module
      [PyRe] gives an executable model of it on a fragment of the pattern
      syntax, used for the concrete runs. *)

From Stdlib Require Import List String Ascii ZArith Bool Arith Lia.
From Stdlib Require Import Permutation Sorted.
Import ListNotations.
Local Open Scope string_scope.
Local Open Scope list_scope.

Set Implicit Arguments.

(** ** Exceptions and results *)

(** The exceptions the module can see.  [NotImplementedError] stands for
    the class and its subclasses (an [except NotImplementedError] clause
    catches both); [ReError] is [re.error]; [TypeError] is raised by an
    ordering comparison with [None]; [OtherError] is any exception that is
    not an instance of [NotImplementedError]. *)
Inductive exn : Type :=
| NotImplementedError (msg : string)
| ReError (msg : string)
| TypeError (msg : string)
| OtherError (cls msg : string).

Inductive result (A : Type) : Type :=
| Return (a : A)
| Raise (e : exn).
Arguments Return {A} a.
Arguments Raise {A} e.

Definition is_NotImplementedError (e : exn) : bool :=
  match e with
  | NotImplementedError _ => true
  | _ => false
  end.

Definition rbind {A B : Type} (r : result A) (k : A -> result B) : result B :=
  match r with
  | Return a => k a
  | Raise e => Raise e
  end.

(** ** Python dictionaries *)

Module PyDict.
Section Dict.
Variables K V : Type.
Variable K_eq_dec : forall x y : K, {x = y} + {x <> y}.

Definition t := list (K * V).

Definition empty : t := [].

(** [d.get(k)], [None] when the key is absent. *)
Fixpoint get (k : K) (d : t) : option V :=
  match d with
  | [] => None
  | (k', v) :: d' => if K_eq_dec k k' then Some v else get k d'
  end.

(** [d[k] = v]: a present key keeps its place and takes the new value, a
    new key goes to the end. *)
Fixpoint set (k : K) (v : V) (d : t) : t :=
  match d with
  | [] => [(k, v)]
  | (k', v') :: d' =>
      if K_eq_dec k k' then (k, v) :: d' else (k', v') :: set k v d'
  end.

(** [d.items()], [d.keys()], [d.values()], in iteration order. *)
Definition items (d : t) : list (K * V) := d.
Definition keys (d : t) : list K := map fst d.
Definition values (d : t) : list V := map snd d.

(** Keys are unique. *)
Definition wf (d : t) : Prop := NoDup (keys d).

End Dict.
End PyDict.

(** ** Strings *)

(** [s.lstrip(c)] for a one-character [c]. *)
Fixpoint lstrip (c : ascii) (s : string) : string :=
  match s with
  | EmptyString => EmptyString
  | String a s' => if Ascii.eqb a c then lstrip c s' else s
  end.

(** [s.rstrip(c)] for a one-character [c]. *)
Fixpoint rstrip (c : ascii) (s : string) : string :=
  match s with
  | EmptyString => EmptyString
  | String a s' =>
      match rstrip c s' with
      | EmptyString => if Ascii.eqb a c then EmptyString else String a EmptyString
      | t => String a t
      end
  end.

(** [normalize], regex.py lines 5-14. *)
Definition normalize (r : string) : string :=
  "^" ++ rstrip "$" (lstrip "^" r) ++ "$".

(** ** A model of [re.match] on a fragment of the pattern syntax

    The fragment: literal characters, [.], the classes [\d \D \w \W \s \S],
    an escaped punctuation character, the anchors [^] and [$], groups
    [( )], alternation [|] and the quantifiers [* + ?], each optionally
    followed by the lazy mark [?].  No flags are set, as in regex.py: [^]
    matches at the start of the string only, [$] at its end or before a
    newline that ends it, and [.] matches any character but a newline.

    [compile] tells a pattern of the fragment ([Compiled]) from one
    [re.compile] rejects ([Invalid]) and from one the model does not cover
    ([Unmodelled]). *)

Module PyRe.

Inductive cclass : Type :=
| AnyChar
| Digit | NotDigit
| Word | NotWord
| Space | NotSpace
| Lit (c : ascii).

Inductive regex : Type :=
| Empty
| Chr (c : cclass)
| AtBeginning
| AtEnd
| Cat (r1 r2 : regex)
| Alt (r1 r2 : regex)
| Star (r : regex).

Definition Plus (r : regex) : regex := Cat r (Star r).
Definition Opt (r : regex) : regex := Alt r Empty.

Definition newline : ascii := ascii_of_nat 10.

Definition between (lo hi : nat) (a : ascii) : bool :=
  let n := nat_of_ascii a in (lo <=? n)%nat && (n <=? hi)%nat.

Definition is_digit (a : ascii) : bool := between 48 57 a.
Definition is_alpha (a : ascii) : bool := between 65 90 a || between 97 122 a.
Definition is_word (a : ascii) : bool :=
  is_digit a || is_alpha a || Ascii.eqb a "_".
Definition is_space (a : ascii) : bool :=
  between 9 13 a || Ascii.eqb a " ".

Definition cclass_mem (c : cclass) (a : ascii) : bool :=
  match c with
  | AnyChar => negb (Ascii.eqb a newline)
  | Digit => is_digit a
  | NotDigit => negb (is_digit a)
  | Word => is_word a
  | NotWord => negb (is_word a)
  | Space => is_space a
  | NotSpace => negb (is_space a)
  | Lit c => Ascii.eqb a c
  end.

(** *** Parsing *)

Inductive compiled : Type :=
| Compiled (r : regex)
| Invalid (msg : string)
| Unmodelled.

(** What a quantifier met at this point applies to. *)
Inductive rstate : Type :=
| NoItem       (* start of a sequence, or after an anchor *)
| Item         (* after an atom or a group *)
| Quantified   (* after a quantifier: a lazy mark may follow *)
| LazyMarked.  (* after a quantifier and its lazy mark *)

(** A sequence being read: the alternatives closed so far and the items of
    the current one, both latest first. *)
Record frame : Type := mkFrame {
  alts : list regex;
  items : list regex;
  rep : rstate
}.

Definition frame0 : frame := mkFrame [] [] NoItem.

Definition cat_items (l : list regex) : regex :=
  fold_left (fun acc r => Cat r acc) l Empty.

Definition close (f : frame) : regex :=
  fold_left (fun acc r => Alt r acc) (alts f) (cat_items (items f)).

Definition push_item (r : regex) (st : rstate) (f : frame) : frame :=
  mkFrame (alts f) (r :: items f) st.

Definition quantify (q : regex -> regex) (f : frame) : frame :=
  match items f with
  | r :: l => mkFrame (alts f) (q r :: l) Quantified
  | [] => f
  end.

Definition escape (c : ascii) : option cclass :=
  if Ascii.eqb c "d" then Some Digit
  else if Ascii.eqb c "D" then Some NotDigit
  else if Ascii.eqb c "w" then Some Word
  else if Ascii.eqb c "W" then Some NotWord
  else if Ascii.eqb c "s" then Some Space
  else if Ascii.eqb c "S" then Some NotSpace
  else if is_digit c || is_alpha c then None
  else if (nat_of_ascii c <? 128)%nat then Some (Lit c)
  else None.

Fixpoint parse (inp : list ascii) (cur : frame) (stack : list frame) : compiled :=
  match inp with
  | [] =>
      match stack with
      | [] => Compiled (close cur)
      | _ :: _ => Invalid "missing ), unterminated subpattern"
      end
  | c :: rest =>
      if Ascii.eqb c "\" then
        match rest with
        | [] => Invalid "bad escape (end of pattern)"
        | e :: rest' =>
            match escape e with
            | Some cl => parse rest' (push_item (Chr cl) Item cur) stack
            | None => Unmodelled
            end
        end
      else if Ascii.eqb c "(" then
        match rest with
        | q :: _ =>
            if Ascii.eqb q "?" then Unmodelled
            else parse rest frame0 (cur :: stack)
        | [] => parse rest frame0 (cur :: stack)
        end
      else if Ascii.eqb c ")" then
        match stack with
        | [] => Invalid "unbalanced parenthesis"
        | up :: stack' => parse rest (push_item (close cur) Item up) stack'
        end
      else if Ascii.eqb c "|" then
        parse rest (mkFrame (cat_items (items cur) :: alts cur) [] NoItem) stack
      else if Ascii.eqb c "^" then
        parse rest (push_item AtBeginning NoItem cur) stack
      else if Ascii.eqb c "$" then
        parse rest (push_item AtEnd NoItem cur) stack
      else if Ascii.eqb c "*" then
        match rep cur with
        | NoItem => Invalid "nothing to repeat"
        | Item => parse rest (quantify Star cur) stack
        | Quantified | LazyMarked => Invalid "multiple repeat"
        end
      else if Ascii.eqb c "+" then
        match rep cur with
        | NoItem => Invalid "nothing to repeat"
        | Item => parse rest (quantify Plus cur) stack
        | Quantified => Unmodelled
        | LazyMarked => Invalid "multiple repeat"
        end
      else if Ascii.eqb c "?" then
        match rep cur with
        | NoItem => Invalid "nothing to repeat"
        | Item => parse rest (quantify Opt cur) stack
        | Quantified => parse rest (mkFrame (alts cur) (items cur) LazyMarked) stack
        | LazyMarked => Invalid "multiple repeat"
        end
      else if Ascii.eqb c "[" || Ascii.eqb c "{" then Unmodelled
      else if (128 <=? nat_of_ascii c)%nat then Unmodelled
      else if Ascii.eqb c "." then
        parse rest (push_item (Chr AnyChar) Item cur) stack
      else parse rest (push_item (Chr (Lit c)) Item cur) stack
  end.

Definition compile (p : string) : compiled :=
  parse (list_ascii_of_string p) frame0 [].

(** *** Matching *)

(** [$] at this point of the subject. *)
Definition at_end (s : list ascii) : bool :=
  match s with
  | [] => true
  | [a] => Ascii.eqb a newline
  | _ => false
  end.

(** [matches r b s k]: some match of [r] from the current position leaves
    a position that [k] accepts.  [b] tells whether the position is the
    start of the subject, [s] is the rest of the subject from the
    position.  An iteration of a star has to consume a character. *)
Fixpoint matches (r : regex) (b : bool) (s : list ascii)
    (k : bool -> list ascii -> bool) : bool :=
  match r with
  | Empty => k b s
  | Chr c =>
      match s with
      | a :: s' => cclass_mem c a && k false s'
      | [] => false
      end
  | AtBeginning => b && k b s
  | AtEnd => at_end s && k b s
  | Cat r1 r2 => matches r1 b s (fun b' s' => matches r2 b' s' k)
  | Alt r1 r2 => matches r1 b s k || matches r2 b s k
  | Star r1 =>
      (fix loop (n : nat) (b : bool) (s : list ascii) {struct n} : bool :=
         k b s ||
         match n with
         | O => false
         | S n' =>
             matches r1 b s
               (fun b' s' => (List.length s' <? List.length s)%nat && loop n' b' s')
         end) (List.length s) b s
  end.

(** [re.match(r, s)] for a compiled [r]: a match at the start of [s]. *)
Definition match_at_start (r : regex) (s : list ascii) : bool :=
  matches r true s (fun _ _ => true).

(** [re.fullmatch(r, s)]: a match at the start that ends at the end. *)
Definition match_whole (r : regex) (s : list ascii) : bool :=
  matches r true s (fun _ s' => match s' with [] => true | _ => false end).

(** [re.search(r, s)]: a match that starts at some position of [s]. *)
Fixpoint match_somewhere (r : regex) (b : bool) (s : list ascii) : bool :=
  matches r b s (fun _ _ => true) ||
  match s with
  | [] => false
  | _ :: s' => match_somewhere r false s'
  end.

Definition run (m : regex -> list ascii -> bool) (p s : string) : result bool :=
  match compile p with
  | Compiled r => Return (m r (list_ascii_of_string s))
  | Invalid msg => Raise (ReError msg)
  | Unmodelled => Raise (ReError "pattern outside the modelled fragment")
  end.

(** The truth value of [re.match(p, s)], or the [re.error] it raises. *)
Definition re_match : string -> string -> result bool := run match_at_start.
Definition re_fullmatch : string -> string -> result bool := run match_whole.
Definition re_search : string -> string -> result bool :=
  run (fun r => match_somewhere r true).

(** [re.compile(p)] raises [re.error]. *)
Definition invalid (p : string) : Prop := exists msg, compile p = Invalid msg.

(** The pattern is one of the fragment. *)
Definition modelled (p : string) : bool :=
  match compile p with
  | Unmodelled => false
  | _ => true
  end.

End PyRe.

(** ** The dispatcher *)

Module Regex.

(** The message of the exception that ends [__call__], regex.py line 76. *)
Definition no_match_message : string :=
  "unable to match any regexes for dispatching".

Section Dispatcher.

(** Handlers are Python callables, compared and hashed by identity. *)
Variable handler : Type.
Variable handler_eq_dec : forall f g : handler, {f = g} + {f <> g}.

(** What a handler returns, and the extra [*args, **kwargs] of a call. *)
Variables value args : Type.

(** [re.match(r, s)]: its truth value, or the exception it raises. *)
Variable re_match : string -> string -> result bool.

(** [f(s, *args, **kwargs)]: the value returned or the exception raised.
    Handlers do not touch the dispatcher. *)
Variable invoke : handler -> string -> args -> result value.

(** The fields set by [__init__], regex.py lines 43-46. *)
Record RegexDispatcher : Type := mkRegexDispatcher {
  name : string;
  funcs : PyDict.t string handler;
  priorities : PyDict.t handler Z
}.

(** A method: it may change the fields of [self] and may raise. *)
Definition M (A : Type) : Type := RegexDispatcher -> result A * RegexDispatcher.

Definition ret {A : Type} (a : A) : M A := fun self => (Return a, self).

Definition bind {A B : Type} (m : M A) (k : A -> M B) : M B :=
  fun self =>
    match m self with
    | (Return a, self') => k a self'
    | (Raise e, self') => (Raise e, self')
    end.

Definition lift {A : Type} (r : result A) : M A := fun self => (r, self).

Definition read {A : Type} (field : RegexDispatcher -> A) : M A :=
  fun self => (Return (field self), self).

Local Notation "x <- m ;; k" := (bind m (fun x => k))
  (at level 61, m at next level, right associativity).

(** [RegexDispatcher(name)]. *)
Definition init (name : string) : RegexDispatcher :=
  mkRegexDispatcher name (PyDict.empty string handler) (PyDict.empty handler Z).

(** [add], regex.py lines 49-51; it returns [None]. *)
Definition add (regex : string) (func : handler) (priority : Z) : M unit :=
  fun self =>
    (Return tt,
     mkRegexDispatcher (name self)
       (PyDict.set string_dec (normalize regex) func (funcs self))
       (PyDict.set handler_eq_dec func priority (priorities self))).

(** [register(regex, priority)(func)], regex.py lines 53-57: the decorator
    applied to [func]; it returns [func]. *)
Definition register (regex : string) (priority : Z) (func : handler) : M handler :=
  _ <- add regex func priority ;; ret func.

(** The comprehension of regex.py line 60,
    [[func for r, func in items if re.match(r, s)]]. *)
Fixpoint matching (items : list (string * handler)) (s : string)
    : result (list handler) :=
  match items with
  | [] => Return []
  | (r, func) :: items' =>
      rbind (re_match r s) (fun m =>
      rbind (matching items' s) (fun l =>
      Return (if m then func :: l else l)))
  end.

(** The ordering comparison of two sort keys.  A key is what
    [priorities.get] returns; comparing with [None] raises [TypeError]. *)
Definition key_lt (a b : option Z) : result bool :=
  match a, b with
  | Some x, Some y => Return (x <? y)%Z
  | _, _ => Raise (TypeError "'<' not supported with NoneType")
  end.

(** [sorted(l, key=key, reverse=True)]: a stable sort into descending
    order of the keys, elements with equal keys in their order in [l]. *)
Fixpoint insert_desc (key : handler -> option Z) (x : handler) (l : list handler)
    : result (list handler) :=
  match l with
  | [] => Return [x]
  | y :: l' =>
      rbind (key_lt (key x) (key y)) (fun lt =>
      if lt then rbind (insert_desc key x l') (fun r => Return (y :: r))
      else Return (x :: y :: l'))
  end.

Fixpoint sorted_reverse (key : handler -> option Z) (l : list handler)
    : result (list handler) :=
  match l with
  | [] => Return []
  | x :: l' => rbind (sorted_reverse key l') (insert_desc key x)
  end.

(** [dispatch_iter], regex.py lines 63-66. *)
Definition dispatch_iter (fs : list handler) : M (list handler) :=
  prio <- read priorities ;;
  lift (sorted_reverse (fun f => PyDict.get handler_eq_dec f prio) fs).

(** [dispatch], regex.py lines 59-61. *)
Definition dispatch (s : string) : M (list handler) :=
  fns <- read funcs ;;
  fs <- lift (matching (PyDict.items fns) s) ;;
  dispatch_iter fs.

(** The loop of [__call__], regex.py lines 69-76, over the candidates
    [fs].  The first component lists the handlers that were called, in
    the order of the calls. *)
Fixpoint call_loop (fs : list handler) (s : string) (a : args)
    : list handler * result value :=
  match fs with
  | [] => ([], Raise (NotImplementedError no_match_message))
  | f :: fs' =>
      match invoke f s a with
      | Return v => ([f], Return v)
      | Raise e =>
          if is_NotImplementedError e
          then let (called, r) := call_loop fs' s a in (f :: called, r)
          else ([f], Raise e)
      end
  end.

(** The handler raises [NotImplementedError] on this call. *)
Definition declines (f : handler) (s : string) (a : args) : Prop :=
  exists m, invoke f s a = Raise (NotImplementedError m).

(** [__call__], regex.py lines 68-76. *)
Definition call (s : string) (a : args) : M value :=
  fs <- dispatch s ;;
  lift (snd (call_loop fs s a)).

(** The handlers [__call__] calls, in order; none when [dispatch] raises. *)
Definition called (s : string) (a : args) (self : RegexDispatcher) : list handler :=
  match fst (dispatch s self) with
  | Return fs => fst (call_loop fs s a)
  | Raise _ => []
  end.

(** A registration request, and a run of them on a dispatcher. *)
Definition registration : Type := (string * handler * Z)%type.

Definition add_all (rs : list registration) (self : RegexDispatcher) : RegexDispatcher :=
  fold_left (fun d '(regex, func, priority) => snd (add regex func priority d)) rs self.

(** The dispatchers a program can build: a fresh one, then calls of [add]
    (calls of [dispatch] and [__call__] leave the fields as they are). *)
Inductive reachable : RegexDispatcher -> Prop :=
| reachable_init (n : string) : reachable (init n)
| reachable_add (regex : string) (func : handler) (priority : Z)
    (self : RegexDispatcher) :
    reachable self -> reachable (snd (add regex func priority self)).

(** The (pattern, handler) pairs of the registry whose pattern matches. *)
Definition matched (self : RegexDispatcher) (s : string) : list handler :=
  map snd (filter (fun rf => match re_match (fst rf) s with
                             | Return true => true
                             | _ => false
                             end) (PyDict.items (funcs self))).

(** A sort key as an integer, for statements on order ([None] never
    takes part in a comparison that returns). *)
Definition key_value (key : handler -> option Z) (f : handler) : Z :=
  match key f with
  | Some p => p
  | None => 0
  end.

Definition ge_key (key : handler -> option Z) (f g : handler) : Prop :=
  (key_value key f >= key_value key g)%Z.

(** The priority of a handler as an integer. *)
Definition priority_of (self : RegexDispatcher) (f : handler) : Z :=
  key_value (fun g => PyDict.get handler_eq_dec g (priorities self)) f.

(** The handler has an entry in [priorities]. *)
Definition has_priority (self : RegexDispatcher) (f : handler) : Prop :=
  exists p, PyDict.get handler_eq_dec f (priorities self) = Some p.

Definition descending (self : RegexDispatcher) (l : list handler) : Prop :=
  StronglySorted (ge_key (fun g => PyDict.get handler_eq_dec g (priorities self))) l.

End Dispatcher.

(** The default of the [priority] argument of [add] and [register]. *)
Definition default_priority : Z := 10%Z.

End Regex.

(** ** A concrete setting for runs of the code *)

Module Example.

(** Handlers that ignore their input: [Answer t] returns [t], [Decline t]
    raises [NotImplementedError], [Fail t] raises [ValueError(t)].  The tag
    tells the function objects apart. *)
Inductive fn : Type :=
| Answer (tag : string)
| Decline (tag : string)
| Fail (tag : string).

Definition fn_eq_dec (f g : fn) : {f = g} + {f <> g}.
Proof. decide equality; apply string_dec. Defined.

Definition invoke (f : fn) (s : string) (a : unit) : result string :=
  match f with
  | Answer t => Return t
  | Decline _ => Raise (NotImplementedError "")
  | Fail t => Raise (OtherError "ValueError" t)
  end.

Definition Dispatcher : Type := Regex.RegexDispatcher fn.

Definition add (regex : string) (func : fn) (priority : Z) : Regex.M fn unit :=
  Regex.add fn_eq_dec regex func priority.

Definition dispatch (s : string) : Regex.M fn (list fn) :=
  Regex.dispatch fn_eq_dec PyRe.re_match s.

Definition call (s : string) : Regex.M fn string :=
  Regex.call fn_eq_dec PyRe.re_match invoke s tt.

Definition called (s : string) (self : Dispatcher) : list fn :=
  Regex.called fn_eq_dec PyRe.re_match invoke s tt self.

Definition fresh : Dispatcher := Regex.init fn "f".

(** [f.add(regex, func, priority)] on [self], keeping the object. *)
Definition after_add (regex : string) (func : fn) (priority : Z)
    (self : Dispatcher) : Dispatcher :=
  snd (add regex func priority self).

(** The string [12] followed by a newline. *)
Definition twelve_newline : string := String "1" (String "2" (String PyRe.newline "")).

(** The handlers of the runs. *)
Definition A : fn := Answer "A".
Definition B : fn := Decline "B".
Definition h : fn := Answer "h".
Definition boom : fn := Fail "boom".
Definition last : fn := Answer "last".
Definition first : fn := Answer "first".
Definition second : fn := Answer "second".

(** [A] at priority 5 and [B] at priority 10, both matching [42]. *)
Definition two : Dispatcher :=
  after_add "\w+" B 10 (after_add "\d+" A 5 fresh).

(** One handler under a pattern with an alternation at top level. *)
Definition alternation : Dispatcher := after_add "a|b" h 10 fresh.

(** One handler under the pattern of the specification's example. *)
Definition digits : Dispatcher := after_add "\d+" h 10 fresh.

(** One handler under a text that is not a regular expression. *)
Definition unbalanced : Dispatcher := after_add "(" h 10 fresh.

(** A handler that declines only. *)
Definition declining : Dispatcher := after_add "\d+" B 10 fresh.

(** A declining handler, then a failing one, then one that answers. *)
Definition chain : Dispatcher :=
  after_add ".+" last 8 (after_add "\w+" boom 9 (after_add "\d+" B 10 fresh)).

End Example.

(** ** The specification's sentences that the code does not satisfy *)

(** Anchoring as the specification has it: an input that a pattern matches
    somewhere but not as a whole is never a candidate of, nor dispatched
    to, the handler registered for the pattern. *)
Definition anchoring_claim : Prop :=
  forall (p s : string) (f : Example.fn) (priority : Z) (l : list Example.fn),
    PyRe.re_fullmatch p s = Return false ->
    PyRe.re_search p s = Return true ->
    let self := Example.after_add p f priority Example.fresh in
    fst (Example.dispatch s self) = Return l ->
    ~ In f l /\ ~ In f (Example.called s self).

(** The failure of a dispatch that found no handler identifies the input:
    the input can be read off the exception. *)
Definition no_match_carries_input_claim : Prop :=
  exists input_of : exn -> string,
    forall (self : Example.Dispatcher) (s : string) (l : list Example.fn),
      fst (Example.dispatch s self) = Return l ->
      (forall f, In f l -> exists m, Example.invoke f s tt = Raise (NotImplementedError m)) ->
      exists e, fst (Example.call s self) = Raise e /\ input_of e = s.

(** Registration of a pattern that is not a regular expression fails. *)
Definition fail_fast_claim : Prop :=
  forall (p : string) (f : Example.fn) (priority : Z) (self : Example.Dispatcher),
    PyRe.invalid p ->
    exists e, fst (Example.add p f priority self) = Raise e.

(** What a registration hands back to its caller: [None], or a function
    object. *)
Inductive returned : Type :=
| PyNone
| PyFunction (f : Example.fn).

Definition returned_by_register (r : result Example.fn) : result returned :=
  rbind r (fun f => Return (PyFunction f)).

(** Registration through [register] is idempotent on the two
    dictionaries and returns no value. *)
Definition register_idempotent_and_void_claim : Prop :=
  forall (regex : string) (func : Example.fn) (priority : Z)
         (self : Example.Dispatcher),
    snd (Regex.bind (Regex.register Example.fn_eq_dec regex priority func)
           (fun _ => Regex.register Example.fn_eq_dec regex priority func) self)
      = snd (Regex.register Example.fn_eq_dec regex priority func self) /\
    returned_by_register
      (fst (Regex.register Example.fn_eq_dec regex priority func self))
      = Return PyNone.

(** ** Strings: helpers for statements *)

(** [c * n]. *)
Fixpoint replicate (n : nat) (c : ascii) : string :=
  match n with
  | O => EmptyString
  | S n' => String c (replicate n' c)
  end.

(** [s.startswith(c)] and [s.endswith(c)] for a one-character [c]. *)
Definition starts_with (c : ascii) (s : string) : bool :=
  match s with
  | String a _ => Ascii.eqb a c
  | EmptyString => false
  end.

Fixpoint ends_with (c : ascii) (s : string) : bool :=
  match s with
  | EmptyString => false
  | String a EmptyString => Ascii.eqb a c
  | String _ s' => ends_with c s'
  end.

(** ** into.backends.hdf

    The classes [HDFFile] and [HDFTable] of [src/into/backends/hdf.py] and
    the functions registered on them.

    - The objects the module is handed and hands on (resources, handles,
      table nodes, data, datashapes, path names) are values of an opaque
      type [obj].
    - The functions of other modules that the code calls ([cleanup],
      [create], [get_table], [discover], [append], [convert], [drop] on
      such objects, [os.remove], indexing of a node) are calls to the
      outside: a call is appended to a log and its outcome is given by an
      oracle [ext] that sees the calls made before it.
    - [HDFFile] objects are mutable ([create] assigns [self.rsrc]) and are
      shared by the tables that have them as parent: they live in a heap
      and are referred to by address.  [HDFTable] objects are never
      assigned after construction and are plain values.
    - a method is a function of the world (heap and log) that returns a
      value or raises, and a new world. *)

Module HDF.

(** [full_node_path], hdf.py lines 287-289. *)
Definition full_node_path (n : string) : string := "/" ++ lstrip "/" n.

(** [a or b] for values that are [None] or a string: [a] when it is
    truthy, that is a string that is not empty, and [b] otherwise. *)
Definition py_or (a b : option string) : option string :=
  match a with
  | None => b
  | Some EmptyString => b
  | Some _ => a
  end.

(** The values for which [a or b] is [b]. *)
Definition falsy (a : option string) : bool :=
  match a with
  | None => true
  | Some EmptyString => true
  | Some _ => false
  end.

(** The first argument of [convert] in hdf.py lines 244-262. *)
Inductive target : Type :=
| DataFrame
| Ndarray
| ChunksDataFrame
| ChunksNdarray.

Definition get_table_message : string :=
  "must specify a datapath in order to access a table in a hdf store".

Definition append_message : string :=
  "must specify a datapath in order to append to a hdf store".

Section Backend.

Variable obj : Type.

(** Keyword arguments handed through, and the empty ones. *)
Variable kwargs : Type.
Variable no_kwargs : kwargs.

(** The calls to the outside, with their arguments. *)
Inductive call : Type :=
| Pathname (r : obj)
| Dialect (r : obj)
| Cleanup (r : obj)
| Create (r : obj) (path : obj)
| GetTable (handle : obj) (datapath : string) (kw : kwargs)
| Discover (x : obj)
| Append (handle : obj) (data : obj) (datapath : option string) (kw : kwargs)
| Convert (t : target) (handle : obj) (kw : kwargs)
| Drop (handle : obj)
| Remove (path : obj)
| GetItem (node : obj) (key : obj).

(** The outcome of a call, given the calls made so far. *)
Variable ext : call -> list call -> result obj.

(** For [pathname] and [dialect]: an implementation is registered for the
    type of the argument, more specific than the one for [object] of
    hdf.py lines 34-43. *)
Variable specific : call -> bool.

(** hdf.py line 105, [getattr(ds, 'names', ds.measure.names)]: the names
    of a datashape, or the exception of the attribute access. *)
Variable names_of : obj -> result (list string).

(** The fields of an [HDFFile], hdf.py lines 72-78. *)
Record HDFFile : Type := mkHDFFile {
  rsrc : obj;
  datapath : option string;
  dshape : option obj;
  file_kwargs : kwargs;
  pathname_of : obj
}.

(** The fields of an [HDFTable], hdf.py lines 155-157; [parent] is the
    address of the file. *)
Record HDFTable : Type := mkHDFTable {
  parent : nat;
  table_datapath : string;
  table_kwargs : kwargs
}.

Record world : Type := mkWorld {
  heap : list HDFFile;
  log : list call
}.

Definition IO (A : Type) : Type := world -> result A * world.

Definition ret {A : Type} (a : A) : IO A := fun w => (Return a, w).

Definition raise {A : Type} (e : exn) : IO A := fun w => (Raise e, w).

Definition bind {A B : Type} (m : IO A) (k : A -> IO B) : IO B :=
  fun w =>
    match m w with
    | (Return a, w') => k a w'
    | (Raise e, w') => (Raise e, w')
    end.

Definition lift {A : Type} (r : result A) : IO A := fun w => (r, w).

Local Notation "x <- m ;; k" := (bind m (fun x => k))
  (at level 61, m at next level, right associativity).

(** A call to the outside. *)
Definition external (c : call) : IO obj :=
  fun w => (ext c (log w), mkWorld (heap w) (log w ++ [c])).

(** The object at an address.  A program holds no reference to an object
    that does not exist; the model raises there. *)
Definition load (a : nat) : IO HDFFile :=
  fun w =>
    match nth_error (heap w) a with
    | Some f => (Return f, w)
    | None => (Raise (OtherError "ReferenceError" "no object at this address"), w)
    end.

(** The object [f] after [f.rsrc = r]. *)
Definition reopened (f : HDFFile) (r : obj) : HDFFile :=
  mkHDFFile r (datapath f) (dshape f) (file_kwargs f) (pathname_of f).

Fixpoint set_rsrc (a : nat) (r : obj) (h : list HDFFile) : list HDFFile :=
  match h, a with
  | [], _ => []
  | f :: h', O => reopened f r :: h'
  | f :: h', S a' => f :: set_rsrc a' r h'
  end.

(** [self.rsrc = r] on the object at [a]. *)
Definition assign_rsrc (a : nat) (r : obj) : IO unit :=
  fun w => (Return tt, mkWorld (set_rsrc a r (heap w)) (log w)).

(** A new object. *)
Definition alloc (f : HDFFile) : IO nat :=
  fun w => (Return (List.length (heap w)), mkWorld (heap w ++ [f]) (log w)).

(** [with mgr as v: body] where [__exit__] returns [None]: when
    [__enter__] raises, [__exit__] is not called; otherwise [__exit__] is
    called after the body, whether the body returned or raised, and an
    exception of [__exit__] replaces the outcome of the body. *)
Definition with_ {A B : Type} (enter : IO A) (exit : IO unit) (body : A -> IO B)
    : IO B :=
  fun w =>
    match enter w with
    | (Raise e, w1) => (Raise e, w1)
    | (Return v, w1) =>
        match body v w1 with
        | (r, w2) =>
            match exit w2 with
            | (Raise e, w3) => (Raise e, w3)
            | (Return _, w3) => (r, w3)
            end
        end
    end.

(** [pathname] and [dialect], hdf.py lines 34-43. *)
Definition pathname (r : obj) : IO obj :=
  if specific (Pathname r) then external (Pathname r)
  else raise (NotImplementedError "").

Definition dialect (r : obj) : IO obj :=
  if specific (Dialect r) then external (Dialect r)
  else raise (NotImplementedError "").

(** [HDFFile.__init__], hdf.py lines 71-79. *)
Definition HDFFile_init (r : obj) (dp : option string) (ds : option obj)
    (kw : kwargs) : IO nat :=
  p <- pathname r ;;
  _ <- external (Cleanup r) ;;
  alloc (mkHDFFile r dp ds kw p).

(** The property [HDFFile.dialect], hdf.py lines 81-83. *)
Definition file_dialect (a : nat) : IO obj :=
  f <- load a ;; dialect (rsrc f).

(** [HDFFile.create], hdf.py lines 122-124. *)
Definition file_create (a : nat) : IO obj :=
  f <- load a ;;
  r <- external (Create (rsrc f) (pathname_of f)) ;;
  _ <- assign_rsrc a r ;;
  ret r.

(** [HDFFile.cleanup], hdf.py lines 126-127. *)
Definition file_cleanup (a : nat) : IO unit :=
  f <- load a ;;
  _ <- external (Cleanup (rsrc f)) ;;
  ret tt.

(** [HDFFile.__enter__] and [HDFFile.__exit__], hdf.py lines 129-135. *)
Definition file_enter (a : nat) : IO obj := file_create a.
Definition file_exit (a : nat) : IO unit := file_cleanup a.

(** The property [HDFFile.shape], hdf.py lines 92-96. *)
Definition file_shape (a : nat) : IO obj :=
  with_ (file_enter a) (file_exit a) (fun ot => external (Discover ot)).

(** [discover_file], hdf.py lines 194-197. *)
Definition discover_file (a : nat) : IO obj :=
  with_ (file_enter a) (file_exit a)
    (fun _ => f <- load a ;; external (Discover (rsrc f))).

(** [HDFFile.keys], hdf.py lines 102-106; [discover(self)] is
    [discover_file]. *)
Definition file_keys (a : nat) : IO (list string) :=
  ds <- discover_file a ;;
  ns <- lift (names_of ds) ;;
  ret (map full_node_path ns).

(** [HDFFile.__contains__], hdf.py lines 98-100. *)
Definition file_contains (a : nat) (key : string) : IO bool :=
  ks <- file_keys a ;;
  ret (existsb (String.eqb (full_node_path key)) ks).

(** [HDFFile.get_table], hdf.py lines 108-120. *)
Definition file_get_table (a : nat) (dp : option string) : IO HDFTable :=
  f <- load a ;;
  match py_or dp (datapath f) with
  | None => raise (OtherError "ValueError" get_table_message)
  | Some d => ret (mkHDFTable a d no_kwargs)
  end.

(** [HDFFile.__getitem__], hdf.py lines 137-139. *)
Definition file_getitem (a : nat) (key : option string) : IO HDFTable :=
  file_get_table a key.

(** [HDFTable.__enter__] and [HDFTable.__exit__], hdf.py lines 180-187. *)
Definition table_enter (t : HDFTable) : IO obj :=
  handle <- file_create (parent t) ;;
  external (GetTable handle (table_datapath t) (table_kwargs t)).

Definition table_exit (t : HDFTable) : IO unit := file_cleanup (parent t).

(** [with t as handle: body]. *)
Definition with_table {B : Type} (t : HDFTable) (body : obj -> IO B) : IO B :=
  with_ (table_enter t) (table_exit t) body.

(** The properties [HDFTable.shape], [dialect] and [pathname], hdf.py
    lines 166-178. *)
Definition table_shape (t : HDFTable) : IO obj :=
  with_table t (fun ot => external (Discover ot)).

Definition table_dialect (t : HDFTable) : IO obj := file_dialect (parent t).

Definition table_pathname (t : HDFTable) : IO obj :=
  f <- load (parent t) ;; ret (pathname_of f).

(** [HDFTable.__getitem__], hdf.py lines 189-192. *)
Definition table_getitem (t : HDFTable) (key : obj) : IO obj :=
  with_table t (fun ot => external (GetItem ot key)).

(** [discover_table], hdf.py lines 200-203. *)
Definition discover_table (t : HDFTable) : IO obj :=
  with_table t (fun ot => external (Discover ot)).

(** [append_object_to_store], hdf.py lines 206-220. *)
Definition append_object_to_store (s : nat) (data : obj) (dp : option string)
    (kw : kwargs) : IO HDFTable :=
  f <- load s ;;
  match py_or dp (datapath f) with
  | None => raise (OtherError "ValueError" append_message)
  | Some d =>
      let t := mkHDFTable s d no_kwargs in
      _ <- with_table t (fun handle => external (Append handle data (Some d) kw)) ;;
      ret t
  end.

(** [append_object_to_table] for a table and an object, hdf.py lines
    223-228. *)
Definition append_object_to_table (t : HDFTable) (data : obj) (kw : kwargs)
    : IO HDFTable :=
  _ <- with_table t (fun handle => external (Append handle data None kw)) ;;
  ret t.

(** [append_object_to_table] for two tables, hdf.py lines 230-242. *)
Definition append_table_to_table (t data : HDFTable) (kw : kwargs) : IO HDFTable :=
  _ <- with_table t (fun t_handle =>
         with_table data (fun d_handle =>
           external (Append t_handle d_handle None kw))) ;;
  ret t.

(** The four conversions, hdf.py lines 244-262. *)
Definition hdftable_to (tg : target) (t : HDFTable) (kw : kwargs) : IO obj :=
  with_table t (fun handle => external (Convert tg handle kw)).

Definition hdftable_to_frame := hdftable_to DataFrame.
Definition hdftable_to_ndarray := hdftable_to Ndarray.
Definition hdftable_to_frame_chunks := hdftable_to ChunksDataFrame.
Definition hdftable_to_ndarray_chunks := hdftable_to ChunksNdarray.

(** [cleanup_hdffile] and [cleanup_hdftable], hdf.py lines 277-284. *)
Definition cleanup_hdffile (a : nat) : IO unit :=
  f <- load a ;;
  _ <- external (Cleanup (rsrc f)) ;;
  ret tt.

Definition cleanup_hdftable (t : HDFTable) : IO unit := cleanup_hdffile (parent t).

(** [drop_hdffile], hdf.py lines 265-268; [cleanup(f)] is
    [cleanup_hdffile]. *)
Definition drop_hdffile (a : nat) : IO unit :=
  _ <- cleanup_hdffile a ;;
  f <- load a ;;
  _ <- external (Remove (pathname_of f)) ;;
  ret tt.

(** [drop_hdftable], hdf.py lines 271-274. *)
Definition drop_hdftable (t : HDFTable) : IO unit :=
  with_table t (fun handle => _ <- external (Drop handle) ;; ret tt).

End Backend.

Arguments Pathname {obj kwargs} r.
Arguments Dialect {obj kwargs} r.
Arguments Cleanup {obj kwargs} r.
Arguments Create {obj kwargs} r path.
Arguments GetTable {obj kwargs} handle datapath kw.
Arguments Discover {obj kwargs} x.
Arguments Append {obj kwargs} handle data datapath kw.
Arguments Convert {obj kwargs} t handle kw.
Arguments Drop {obj kwargs} handle.
Arguments Remove {obj kwargs} path.
Arguments GetItem {obj kwargs} node key.
Arguments mkHDFFile {obj kwargs} rsrc datapath dshape file_kwargs pathname_of.
Arguments mkHDFTable {kwargs} parent table_datapath table_kwargs.
Arguments mkWorld {obj kwargs} heap log.

End HDF.

(** ** Concrete settings for the further runs *)

Module Ties.

(** Two handlers of the same priority whose patterns both match [42],
    registered in this order, and a third of a lower priority. *)
Definition g1 : Example.fn := Example.Answer "g1".
Definition g2 : Example.fn := Example.Answer "g2".
Definition low : Example.fn := Example.Answer "low".

Definition tied : Example.Dispatcher :=
  Example.after_add "\w+" g2 10
    (Example.after_add "4." low 3
       (Example.after_add "\d+" g1 10 Example.fresh)).

End Ties.

Module HDFExample.

(** Objects are named by strings.  [create] returns a new handle, the
    table [/missing] does not exist, and the resource [locked] cannot be
    cleaned up. *)
Definition ext (c : HDF.call string unit) (before : list (HDF.call string unit))
    : result string :=
  match c with
  | HDF.Pathname r => Return (r ++ ".h5")%string
  | HDF.Dialect _ => Return "pytables"
  | HDF.Cleanup r =>
      if String.eqb r "locked" then Raise (OtherError "IOError" "locked")
      else Return "None"
  | HDF.Create r _ => Return (r ++ "+")%string
  | HDF.GetTable handle dp _ =>
      if String.eqb dp "/missing" then Raise (OtherError "KeyError" dp)
      else Return (handle ++ ":" ++ dp)%string
  | HDF.Discover x => Return ("shape of " ++ x)%string
  | HDF.Append _ _ _ _ => Return "None"
  | HDF.Convert _ handle _ => Return ("frame of " ++ handle)%string
  | HDF.Drop _ => Return "None"
  | HDF.Remove _ => Return "None"
  | HDF.GetItem node key => Return (node ++ "[" ++ key ++ "]")%string
  end.

(** Every resource but [plain] has a dialect. *)
Definition specific (c : HDF.call string unit) : bool :=
  match c with
  | HDF.Pathname r => negb (String.eqb r "plain")
  | HDF.Dialect r => negb (String.eqb r "plain")
  | _ => false
  end.

Definition names_of (ds : string) : result (list string) :=
  Return ["a"; "/b"; "//c"].

Definition file (r : string) (dp : option string) : HDF.HDFFile string unit :=
  HDF.mkHDFFile r dp None tt (r ++ ".h5")%string.

(** A store without a default datapath at address 0, one with the
    default [/t] at address 1, and a locked one at address 2; nothing has
    been called yet. *)
Definition w0 : HDF.world string unit :=
  HDF.mkWorld
    [file "store" None; file "other" (Some "/t"); file "locked" None] [].

Definition table (a : nat) (dp : string) : HDF.HDFTable unit :=
  HDF.mkHDFTable a dp tt.

End HDFExample.

(** ** Tactics for the concrete runs *)

(** [re.match] returns on the one or two stored patterns of a run. *)
Ltac stored_patterns_return :=
  let r := fresh "r" in
  let f := fresh "f" in
  let I := fresh "I" in
  intros r f I; vm_compute in I;
  repeat (destruct I as [I|I]; [inversion I; subst; eexists; vm_compute; reflexivity|]);
  destruct I.

Ltac all_decline :=
  let g := fresh "g" in
  let I := fresh "I" in
  intros g I; vm_compute in I;
  repeat (destruct I as [I|I]; [subst g; eexists; reflexivity|]);
  destruct I.

(** * Properties *)

Unset Implicit Arguments.

(** ** Dictionaries *)

Section DictFacts.
Variables K V : Type.
Variable K_eq_dec : forall x y : K, {x = y} + {x <> y}.

Local Abbreviation get := (PyDict.get K_eq_dec).
Local Abbreviation set := (PyDict.set K_eq_dec).

Lemma get_set_same (k : K) (v : V) d : get k (set k v d) = Some v.
Proof.
  induction d as [|[k' v'] d IH]; simpl.
  - destruct (K_eq_dec k k); congruence.
  - destruct (K_eq_dec k k') as [E|N]; simpl.
    + destruct (K_eq_dec k k); congruence.
    + destruct (K_eq_dec k k'); [contradiction|exact IH].
Qed.

Lemma get_set_other (k k' : K) (v : V) d :
  k' <> k -> get k' (set k v d) = get k' d.
Proof.
  intros N. induction d as [|[k0 v0] d IH]; simpl.
  - destruct (K_eq_dec k' k); [contradiction|reflexivity].
  - destruct (K_eq_dec k k0) as [E|N0]; simpl.
    + subst k0. destruct (K_eq_dec k' k); [contradiction|reflexivity].
    + destruct (K_eq_dec k' k0); [reflexivity|exact IH].
Qed.

Lemma set_set_same (k : K) (v : V) d : set k v (set k v d) = set k v d.
Proof.
  induction d as [|[k' v'] d IH]; simpl.
  - destruct (K_eq_dec k k); congruence.
  - destruct (K_eq_dec k k') as [E|N]; simpl.
    + destruct (K_eq_dec k k); congruence.
    + destruct (K_eq_dec k k'); [contradiction|now rewrite IH].
Qed.

Lemma keys_set (k : K) (v : V) d :
  PyDict.keys (set k v d) =
  if in_dec K_eq_dec k (PyDict.keys d) then PyDict.keys d else PyDict.keys d ++ [k].
Proof.
  unfold PyDict.keys. induction d as [|[k' v'] d IH]; simpl.
  - reflexivity.
  - destruct (K_eq_dec k k') as [E|N]; simpl.
    + subst. destruct (K_eq_dec k' k'); [reflexivity|contradiction].
    + destruct (K_eq_dec k' k); [congruence|].
      rewrite IH.
      destruct (in_dec K_eq_dec k (map fst d)); reflexivity.
Qed.

Lemma wf_empty : PyDict.wf (PyDict.empty K V).
Proof. constructor. Qed.

Lemma wf_set (k : K) (v : V) d : PyDict.wf d -> PyDict.wf (set k v d).
Proof.
  unfold PyDict.wf. intros H. rewrite keys_set.
  destruct (in_dec K_eq_dec k (PyDict.keys d)) as [I|N]; [exact H|].
  apply NoDup_app; [exact H|repeat constructor; intros []|].
  intros x Hx [E|[]]. subst. contradiction.
Qed.

Lemma in_items_get (k : K) (v : V) d :
  PyDict.wf d -> In (k, v) (PyDict.items d) -> get k d = Some v.
Proof.
  unfold PyDict.wf, PyDict.keys, PyDict.items.
  induction d as [|[k' v'] d IH]; simpl; [intros _ []|].
  intros ND [E|I].
  - inversion E; subst. destruct (K_eq_dec k k); congruence.
  - inversion ND; subst. destruct (K_eq_dec k k') as [E|N].
    + subst. exfalso. apply H1. change k' with (fst (k', v)). now apply in_map.
    + now apply IH.
Qed.

Lemma get_in_items (k : K) (v : V) d :
  get k d = Some v -> In (k, v) (PyDict.items d).
Proof.
  unfold PyDict.items. induction d as [|[k' v'] d IH]; simpl; [discriminate|].
  destruct (K_eq_dec k k'); intros H.
  - inversion H; subst. now left.
  - right. now apply IH.
Qed.

(** After [d[k] = v] an item is the assigned one, or one that was in the
    dictionary under another key. *)
Lemma in_items_set (k : K) (v : V) d k' v' :
  PyDict.wf d -> In (k', v') (PyDict.items (set k v d)) ->
  (k' = k /\ v' = v) \/ (k' <> k /\ In (k', v') (PyDict.items d)).
Proof.
  intros W I. apply in_items_get in I; [|now apply wf_set].
  destruct (K_eq_dec k' k) as [E|N].
  - subst. rewrite get_set_same in I. inversion I. now left.
  - rewrite get_set_other in I by exact N. right. split; [exact N|].
    now apply get_in_items.
Qed.

Lemma in_values_set (k : K) (v : V) d v' :
  In v' (PyDict.values (set k v d)) -> v' = v \/ In v' (PyDict.values d).
Proof.
  unfold PyDict.values. induction d as [|[k0 v0] d IH]; simpl.
  - intros [E|[]]. now left.
  - destruct (K_eq_dec k k0); simpl.
    + intros [E|I]; [now left|right; now right].
    + intros [E|I]; [right; now left|].
      destruct (IH I); [now left|right; now right].
Qed.

End DictFacts.

(** ** [normalize] *)

Lemma lstrip_app_other (c x : ascii) (s : string) :
  x <> c -> lstrip c (s ++ String x "") = (lstrip c s ++ String x "")%string.
Proof.
  intros N. induction s as [|a s IH]; simpl.
  - destruct (Ascii.eqb_spec x c); [contradiction|reflexivity].
  - destruct (Ascii.eqb a c); [exact IH|reflexivity].
Qed.

Lemma rstrip_app_same (c : ascii) (s : string) :
  rstrip c (s ++ String c "") = rstrip c s.
Proof.
  induction s as [|a s IH]; simpl.
  - now rewrite Ascii.eqb_refl.
  - now rewrite IH.
Qed.

Lemma normalize_anchored (p : string) :
  normalize ("^" ++ p ++ "$") = normalize p.
Proof.
  unfold normalize. simpl.
  rewrite lstrip_app_other by discriminate.
  now rewrite rstrip_app_same.
Qed.

(** ** The dispatcher *)

Section DispatcherFacts.
Variable handler : Type.
Variable handler_eq_dec : forall f g : handler, {f = g} + {f <> g}.
Variables value args : Type.
Variable re_match : string -> string -> result bool.
Variable invoke : handler -> string -> args -> result value.

Local Abbreviation Disp := (Regex.RegexDispatcher handler).
Local Abbreviation add := (Regex.add handler_eq_dec).
Local Abbreviation register := (Regex.register handler_eq_dec).
Local Abbreviation matching := (Regex.matching re_match).
Local Abbreviation dispatch_iter := (Regex.dispatch_iter handler_eq_dec).
Local Abbreviation dispatch := (Regex.dispatch handler_eq_dec re_match).
Local Abbreviation call_loop := (Regex.call_loop invoke).
Local Abbreviation call := (Regex.call handler_eq_dec re_match invoke).
Local Abbreviation called := (Regex.called handler_eq_dec re_match invoke).
Local Abbreviation reachable := (Regex.reachable handler_eq_dec).
Local Abbreviation matched := (Regex.matched re_match).
Local Abbreviation priority_of := (Regex.priority_of handler_eq_dec).
Local Abbreviation descending := (Regex.descending handler_eq_dec).
Local Abbreviation has_priority := (Regex.has_priority handler_eq_dec).
Local Abbreviation prio_get := (PyDict.get handler_eq_dec).
Local Abbreviation declines := (Regex.declines invoke).

(** *** The comprehension *)

Lemma matching_matched (self : Disp) (s : string) (l : list handler) :
  matching (PyDict.items (Regex.funcs self)) s = Return l -> l = matched self s.
Proof.
  unfold Regex.matched, PyDict.items. generalize (Regex.funcs self) as d.
  intros d. revert l. induction d as [|[r f] d IH]; simpl; intros l H.
  - now inversion H.
  - destruct (re_match r s) as [m|e]; simpl in H; [|discriminate].
    destruct (Regex.matching re_match d s) as [l'|e]; simpl in H; [|discriminate].
    inversion H; subst. rewrite (IH l' eq_refl). now destruct m.
Qed.

Lemma matching_total (items : list (string * handler)) (s : string) :
  (forall r f, In (r, f) items -> exists m, re_match r s = Return m) ->
  exists l, matching items s = Return l.
Proof.
  induction items as [|[r f] d IH]; simpl; intros H.
  - now exists [].
  - destruct (H r f (or_introl eq_refl)) as [m Hm]. rewrite Hm. simpl.
    destruct IH as [l Hl]; [intros r' f' I; apply (H r' f'); now right|].
    rewrite Hl. simpl. eauto.
Qed.

(** A pattern on which [re.match] raises makes the comprehension raise. *)
Lemma matching_raises (items : list (string * handler)) (s : string) r f e :
  In (r, f) items -> re_match r s = Raise e ->
  exists r' f' e', In (r', f') items /\ re_match r' s = Raise e' /\
                   matching items s = Raise e'.
Proof.
  induction items as [|[r0 f0] d IH]; simpl; [intros []|].
  intros I Hr. destruct (re_match r0 s) as [m|e0] eqn:E0; simpl.
  - destruct I as [I|I]; [inversion I; subst; congruence|].
    destruct (IH I Hr) as (r' & f' & e' & I' & R' & M').
    exists r', f', e'. rewrite M'. simpl. auto.
  - exists r0, f0, e0. auto.
Qed.

Lemma in_matched (self : Disp) (s : string) (f : handler) :
  In f (matched self s) <->
  exists r, In (r, f) (PyDict.items (Regex.funcs self)) /\ re_match r s = Return true.
Proof.
  unfold Regex.matched. rewrite in_map_iff. split.
  - intros ([r f'] & E & I). simpl in E. subst f'.
    apply filter_In in I. destruct I as [I T]. simpl in T.
    exists r. split; [exact I|].
    destruct (re_match r s) as [[|]|]; congruence.
  - intros (r & I & T). exists (r, f). split; [reflexivity|].
    apply filter_In. split; [exact I|]. simpl. now rewrite T.
Qed.

(** *** The sort *)

Section Sort.
Variable key : handler -> option Z.

Local Abbreviation kz := (Regex.key_value key).
Local Abbreviation ge_key := (Regex.ge_key key).

Lemma key_lt_kz (f g : handler) (b : bool) :
  Regex.key_lt (key f) (key g) = Return b -> b = (kz f <? kz g)%Z.
Proof.
  unfold Regex.key_lt, Regex.key_value. destruct (key f), (key g); intros H; now inversion H.
Qed.

Lemma insert_desc_perm (x : handler) (l l' : list handler) :
  Regex.insert_desc key x l = Return l' -> Permutation (x :: l) l'.
Proof.
  revert l'. induction l as [|y l IH]; simpl; intros l' H.
  - inversion H. apply Permutation_refl.
  - destruct (Regex.key_lt (key x) (key y)) as [[|]|e]; simpl in H;
      try discriminate.
    + destruct (Regex.insert_desc key x l) as [r|e]; simpl in H;
        [|discriminate].
      inversion H; subst.
      apply perm_trans with (y :: x :: l); [apply perm_swap|].
      apply perm_skip. now apply IH.
    + inversion H. apply Permutation_refl.
Qed.

Lemma insert_desc_sorted (x : handler) (l l' : list handler) :
  Regex.insert_desc key x l = Return l' ->
  StronglySorted ge_key l -> StronglySorted ge_key l'.
Proof.
  revert l'. induction l as [|y l IH]; simpl; intros l' H S.
  - inversion H. repeat constructor.
  - destruct (Regex.key_lt (key x) (key y)) as [b|e] eqn:E; simpl in H;
      [|discriminate].
    apply key_lt_kz in E. inversion S as [|? ? Sl Fy]; subst.
    destruct (kz x <? kz y)%Z eqn:C.
    + destruct (Regex.insert_desc key x l) as [r|e] eqn:Er; simpl in H;
        [|discriminate].
      inversion H; subst. constructor; [now apply IH|].
      apply Forall_forall. intros z Hz.
      apply (Permutation_in _ (Permutation_sym (insert_desc_perm _ _ _ Er))) in Hz.
      destruct Hz as [<-|Hz].
      * unfold Regex.ge_key. apply Z.ltb_lt in C. lia.
      * rewrite Forall_forall in Fy. now apply Fy.
    + inversion H; subst. apply Z.ltb_ge in C. constructor; [exact S|].
      constructor; [unfold Regex.ge_key; lia|].
      rewrite Forall_forall in Fy |- *. intros z Hz.
      specialize (Fy z Hz). unfold Regex.ge_key in *. lia.
Qed.

(** What the sort returns is its argument rearranged into descending
    order of the keys. *)
Lemma sorted_reverse_sound (l l' : list handler) :
  Regex.sorted_reverse key l = Return l' ->
  Permutation l l' /\ StronglySorted ge_key l'.
Proof.
  revert l'. induction l as [|x l IH]; simpl; intros l' H.
  - inversion H. split; constructor.
  - destruct (Regex.sorted_reverse key l) as [r|e]; simpl in H; [|discriminate].
    destruct (IH r eq_refl) as [P S]. split.
    + apply perm_trans with (x :: r); [now apply perm_skip|].
      now apply insert_desc_perm.
    + now apply insert_desc_sorted with (x := x) (l := r).
Qed.

Lemma insert_desc_total (x : handler) (l : list handler) :
  (forall y, In y (x :: l) -> exists p, key y = Some p) ->
  exists l', Regex.insert_desc key x l = Return l'.
Proof.
  induction l as [|y l IH]; simpl; intros H; [eauto|].
  destruct (H x (or_introl eq_refl)) as [px Hx].
  destruct (H y (or_intror (or_introl eq_refl))) as [py Hy].
  rewrite Hx, Hy. simpl. destruct (px <? py)%Z; [|eauto].
  destruct IH as [r Hr].
  - intros z [E|I]; apply H; [now left|right; now right].
  - rewrite Hr. simpl. eauto.
Qed.

(** The sort returns when every element has a key. *)
Lemma sorted_reverse_total (l : list handler) :
  (forall y, In y l -> exists p, key y = Some p) ->
  exists l', Regex.sorted_reverse key l = Return l'.
Proof.
  induction l as [|x l IH]; simpl; intros H; [eauto|].
  destruct IH as [r Hr]; [intros y I; apply H; now right|].
  rewrite Hr. simpl. apply insert_desc_total.
  intros y [E|I]; apply H; [now left|right].
  destruct (sorted_reverse_sound _ _ Hr) as [P _].
  now apply (Permutation_in _ (Permutation_sym P)).
Qed.

(** With two elements or more, an element without a key makes the sort
    raise: every element takes part in a comparison. *)
Lemma sorted_reverse_none (l : list handler) (f : handler) :
  (2 <= List.length l)%nat -> In f l -> key f = None ->
  exists e, Regex.sorted_reverse key l = Raise e.
Proof.
  induction l as [|x l IH]; simpl; [lia|]. intros L I N.
  destruct (Regex.sorted_reverse key l) as [r|e] eqn:E; simpl; [|eauto].
  destruct (sorted_reverse_sound _ _ E) as [P _].
  destruct r as [|y r].
  { apply Permutation_length in P. simpl in P. lia. }
  simpl. destruct (key x) as [px|] eqn:Kx; [|simpl; eauto].
  destruct (key y) as [py|] eqn:Ky; [|simpl; eauto].
  exfalso. destruct I as [->|I]; [congruence|].
  destruct l as [|z [|z' l]]; [destruct I| |].
  - destruct I as [->|[]]. simpl in E. inversion E; subst. congruence.
  - destruct IH as [e He]; [simpl; lia|exact I|exact N|]. congruence.
Qed.

End Sort.

(** *** [dispatch] and [__call__] unfolded *)

Lemma dispatch_eq (s : string) (self : Disp) :
  dispatch s self =
  (rbind (matching (PyDict.items (Regex.funcs self)) s)
     (Regex.sorted_reverse (fun f => prio_get f (Regex.priorities self))),
   self).
Proof.
  unfold Regex.dispatch, Regex.dispatch_iter, Regex.bind, Regex.read, Regex.lift.
  destruct (matching (PyDict.items (Regex.funcs self)) s); reflexivity.
Qed.

Lemma call_eq (s : string) (a : args) (self : Disp) :
  call s a self =
  (rbind (fst (dispatch s self)) (fun fs => snd (call_loop fs s a)), self).
Proof.
  unfold Regex.call, Regex.bind, Regex.lift. rewrite dispatch_eq. simpl.
  destruct (rbind _ _); reflexivity.
Qed.

(** What [dispatch] returns is the list of the handlers whose pattern
    matches, rearranged into descending order of priority. *)
Lemma dispatch_sound (s : string) (self : Disp) (l : list handler) :
  fst (dispatch s self) = Return l ->
  Permutation (matched self s) l /\ descending self l.
Proof.
  rewrite dispatch_eq. simpl.
  destruct (matching (PyDict.items (Regex.funcs self)) s) as [fs|e] eqn:E;
    simpl; [|discriminate].
  apply matching_matched in E. subst fs. intros H.
  apply sorted_reverse_sound in H. exact H.
Qed.

(** *** Invariants of the reachable dispatchers *)

Lemma reachable_funcs_wf (self : Disp) :
  reachable self -> PyDict.wf (Regex.funcs self).
Proof.
  induction 1; simpl; [apply wf_empty|now apply wf_set].
Qed.

Lemma reachable_has_priority (self : Disp) :
  reachable self ->
  forall f, In f (PyDict.values (Regex.funcs self)) -> has_priority self f.
Proof.
  unfold Regex.has_priority. induction 1 as [n|regex func priority self R IH]; simpl.
  - intros f [].
  - intros f I. apply in_values_set in I.
    destruct (handler_eq_dec f func) as [E|N].
    + subst. rewrite get_set_same. eauto.
    + rewrite get_set_other by exact N.
      destruct I as [E|I]; [contradiction|now apply IH].
Qed.

Lemma matched_values (self : Disp) (s : string) (f : handler) :
  In f (matched self s) -> In f (PyDict.values (Regex.funcs self)).
Proof.
  rewrite in_matched. intros (r & I & _).
  unfold PyDict.values. change f with (snd (r, f)). now apply in_map.
Qed.

(** On a reachable dispatcher [dispatch] returns as soon as [re.match]
    returns on every stored pattern. *)
Lemma dispatch_total (s : string) (self : Disp) :
  reachable self ->
  (forall r f, In (r, f) (PyDict.items (Regex.funcs self)) ->
               exists m, re_match r s = Return m) ->
  exists l, fst (dispatch s self) = Return l.
Proof.
  intros R H. rewrite dispatch_eq. simpl.
  destruct (matching_total _ _ H) as [fs E]. rewrite E. simpl.
  apply sorted_reverse_total. intros f I.
  apply (reachable_has_priority _ R). apply matched_values with (s := s).
  now rewrite <- (matching_matched _ _ _ E).
Qed.

Lemma reachable_add_all (rs : list (Regex.registration handler)) (self : Disp) :
  reachable self -> reachable (Regex.add_all handler_eq_dec rs self).
Proof.
  revert self. induction rs as [|[[regex func] priority] rs IH]; simpl; intros self R.
  - exact R.
  - apply IH. now constructor.
Qed.

(** *** The loop of [__call__] *)

Lemma call_loop_declined (fs : list handler) (s : string) (a : args) :
  (forall f, In f fs -> declines f s a) ->
  call_loop fs s a = (fs, Raise (NotImplementedError Regex.no_match_message)).
Proof.
  induction fs as [|f fs IH]; simpl; intros H; [reflexivity|].
  destruct (H f (or_introl eq_refl)) as [m Hm]. rewrite Hm. simpl.
  rewrite IH; [reflexivity|]. intros g I. apply H. now right.
Qed.

Lemma call_loop_app (pre rest : list handler) (s : string) (a : args) :
  (forall f, In f pre -> declines f s a) ->
  call_loop (pre ++ rest) s a =
  (pre ++ fst (call_loop rest s a), snd (call_loop rest s a)).
Proof.
  induction pre as [|f pre IH]; simpl; intros H.
  - now destruct (call_loop rest s a).
  - destruct (H f (or_introl eq_refl)) as [m Hm]. rewrite Hm. simpl.
    rewrite IH; [reflexivity|]. intros g I. apply H. now right.
Qed.

Lemma call_loop_head (f : handler) (fs : list handler) (s : string) (a : args) :
  exists rest, fst (call_loop (f :: fs) s a) = f :: rest.
Proof.
  simpl. destruct (invoke f s a) as [v|[]]; simpl; eauto.
  destruct (call_loop fs s a); simpl; eauto.
Qed.

Lemma called_eq (s : string) (a : args) (self : Disp) (l : list handler) :
  fst (dispatch s self) = Return l -> called s a self = fst (call_loop l s a).
Proof. unfold Regex.called. now intros ->. Qed.

Lemma call_result (s : string) (a : args) (self : Disp) (l : list handler) :
  fst (dispatch s self) = Return l ->
  fst (call s a self) = snd (call_loop l s a).
Proof. rewrite call_eq. simpl. now intros ->. Qed.

(** *** Registration *)

(** C8, as the code has it. Registration idempotence: performing [add]
    twice in succession with the same pattern, handler and priority
    leaves both dictionaries of the dispatcher as one [add] leaves them,
    and so does the decorator form [register], which leaves the
    dispatcher as [add] does.  [add] returns [None]; [register] returns
    the handler it was given. *)
Theorem registration_idempotent (regex : string) (func : handler) (priority : Z)
    (self : Disp) :
  Regex.bind (add regex func priority) (fun _ => add regex func priority) self
    = add regex func priority self /\
  fst (add regex func priority self) = Return tt /\
  Regex.bind (register regex priority func)
    (fun _ => register regex priority func) self
    = register regex priority func self /\
  fst (register regex priority func self) = Return func /\
  snd (register regex priority func self) = snd (add regex func priority self).
Proof.
  unfold Regex.register, Regex.bind, Regex.ret, Regex.add. simpl.
  rewrite !set_set_same. auto.
Qed.

(** C7. Normalization equivalence: registering the anchored text [^p$]
    and registering the bare text [p] with the same handler and priority
    on the same dispatcher give the same dispatcher, hence the same
    matching handlers and the same candidates for every input. *)
Theorem anchored_registration_same (p : string) (func : handler)
    (priority : Z) (self : Disp) :
  add ("^" ++ p ++ "$") func priority self = add p func priority self /\
  forall s : string,
    matched (snd (add ("^" ++ p ++ "$") func priority self)) s
      = matched (snd (add p func priority self)) s /\
    dispatch s (snd (add ("^" ++ p ++ "$") func priority self))
      = dispatch s (snd (add p func priority self)).
Proof.
  assert (E : add ("^" ++ p ++ "$") func priority self = add p func priority self).
  { unfold Regex.add. now rewrite normalize_anchored. }
  split; [exact E|]. intros s. now rewrite E.
Qed.

(** C9. Collision of normalized patterns: when two registrations have
    pattern texts with the same normal form and distinct handlers, the
    pattern is associated with the later handler only, and for every
    input the earlier handler is a candidate only if it is stored under
    another pattern that matches the input. *)
Theorem collision_overwrites (p1 p2 : string) (f1 f2 : handler)
    (pr1 pr2 : Z) (between : list (Regex.registration handler))
    (self : Disp) :
  reachable self ->
  normalize p1 = normalize p2 ->
  f1 <> f2 ->
  let self' :=
    snd (add p2 f2 pr2
           (Regex.add_all handler_eq_dec between (snd (add p1 f1 pr1 self)))) in
  PyDict.get string_dec (normalize p1) (Regex.funcs self') = Some f2 /\
  forall (s : string) (l : list handler),
    fst (dispatch s self') = Return l ->
    In f1 l ->
    exists r, r <> normalize p1 /\
              In (r, f1) (PyDict.items (Regex.funcs self')) /\
              re_match r s = Return true.
Proof.
  intros R E N self'.
  assert (R' : reachable self').
  { unfold self'. constructor. apply reachable_add_all. now constructor. }
  assert (G : PyDict.get string_dec (normalize p1) (Regex.funcs self') = Some f2).
  { unfold self'. simpl. rewrite E. apply get_set_same. }
  split; [exact G|]. intros s l D I.
  destruct (dispatch_sound _ _ _ D) as [P _].
  apply (Permutation_in _ (Permutation_sym P)) in I.
  apply in_matched in I. destruct I as (r & I & T).
  exists r. split; [|auto]. intros ->.
  apply (in_items_get _ _ string_dec) in I; [|now apply reachable_funcs_wf].
  congruence.
Qed.

(** C10. Priority-map invariant: on every dispatcher built from a fresh
    one by registrations, every handler stored in [funcs] has an entry in
    [priorities]; so every candidate has an integer sort key and the sort
    of [dispatch_iter] returns. *)
Theorem priorities_cover_funcs (self : Disp) :
  reachable self ->
  (forall f, In f (PyDict.values (Regex.funcs self)) -> has_priority self f) /\
  (forall (s : string) (fs : list handler),
     matching (PyDict.items (Regex.funcs self)) s = Return fs ->
     (forall f, In f fs -> has_priority self f) /\
     exists l, fst (dispatch_iter fs self) = Return l).
Proof.
  intros R. split; [now apply reachable_has_priority|].
  intros s fs E.
  assert (H : forall f, In f fs -> has_priority self f).
  { intros f I. apply (reachable_has_priority _ R).
    apply matched_values with (s := s).
    now rewrite <- (matching_matched _ _ _ E). }
  split; [exact H|].
  unfold Regex.dispatch_iter, Regex.bind, Regex.read, Regex.lift. simpl.
  now apply sorted_reverse_total.
Qed.

(** C6. Candidate determinism: [dispatch] and [dispatch_iter] leave the
    dispatcher as it is, so a second call with the same input returns the
    same ordered list of handlers (or raises the same exception). *)
Theorem dispatch_deterministic (s : string) (fs : list handler) (self : Disp) :
  snd (dispatch s self) = self /\
  dispatch s (snd (dispatch s self)) = dispatch s self /\
  snd (dispatch_iter fs self) = self /\
  dispatch_iter fs (snd (dispatch_iter fs self)) = dispatch_iter fs self.
Proof.
  assert (A : snd (dispatch s self) = self) by now rewrite dispatch_eq.
  assert (B : snd (dispatch_iter fs self) = self).
  { unfold Regex.dispatch_iter, Regex.bind, Regex.read, Regex.lift. reflexivity. }
  rewrite A, B. auto.
Qed.

(** *** Calling the dispatcher *)

(** C5. Fatal passthrough: when the candidates before [f] have all raised
    [NotImplementedError] and [f] raises an exception [e] that is not a
    [NotImplementedError], [__call__] raises exactly [e], and the
    handlers called are those up to [f]: none of the candidates after [f]
    is called. *)
Theorem fatal_passthrough (s : string) (a : args) (self : Disp)
    (pre post : list handler) (f : handler) (e : exn) :
  fst (dispatch s self) = Return (pre ++ f :: post) ->
  (forall g, In g pre -> declines g s a) ->
  invoke f s a = Raise e ->
  is_NotImplementedError e = false ->
  fst (call s a self) = Raise e /\
  called s a self = pre ++ [f].
Proof.
  intros D Hpre Hf He.
  rewrite (call_result _ a _ _ D), (called_eq _ a _ _ D).
  rewrite call_loop_app by exact Hpre. simpl. rewrite Hf, He. auto.
Qed.

(** C3, as the code has it. When [dispatch] returns no candidate, or
    every candidate raises [NotImplementedError], [__call__] has called
    every candidate in order and raises [NotImplementedError] with the
    fixed message of regex.py line 76, whatever the input is. *)
Theorem no_match_fixed_message (s : string) (a : args) (self : Disp)
    (l : list handler) :
  fst (dispatch s self) = Return l ->
  (forall f, In f l -> declines f s a) ->
  fst (call s a self) = Raise (NotImplementedError Regex.no_match_message) /\
  called s a self = l.
Proof.
  intros D H.
  rewrite (call_result _ a _ _ D), (called_eq _ a _ _ D).
  now rewrite call_loop_declined by exact H.
Qed.

(** C4, as the code has it. Registration checks nothing.  With any text
    as the pattern, [add] returns [None] and stores the handler under the
    normalized text, and [register] returns the handler it was given and
    leaves the dispatcher as [add] does.  A stored pattern on which
    [re.match] raises makes every later [dispatch] and [__call__] on that
    input raise the exception of the first such pattern, and no handler
    is called. *)
Theorem add_never_fails (regex : string) (func : handler) (priority : Z)
    (self : Disp) :
  (fst (add regex func priority self) = Return tt /\
   PyDict.get string_dec (normalize regex)
     (Regex.funcs (snd (add regex func priority self))) = Some func) /\
  (fst (register regex priority func self) = Return func /\
   snd (register regex priority func self) = snd (add regex func priority self) /\
   PyDict.get string_dec (normalize regex)
     (Regex.funcs (snd (register regex priority func self))) = Some func) /\
  forall (d : Disp) (s : string) (a : args) (r : string) (f : handler) (e : exn),
    In (r, f) (PyDict.items (Regex.funcs d)) ->
    re_match r s = Raise e ->
    exists r' f' e',
      In (r', f') (PyDict.items (Regex.funcs d)) /\
      re_match r' s = Raise e' /\
      fst (dispatch s d) = Raise e' /\
      fst (call s a d) = Raise e' /\
      called s a d = [].
Proof.
  split; [|split].
  - split; [reflexivity|]. simpl. apply get_set_same.
  - repeat split. simpl. apply get_set_same.
  - intros d s a r f e I Hr.
    destruct (matching_raises _ _ _ _ _ I Hr) as (r' & f' & e' & I' & R' & M').
    exists r', f', e'.
    assert (D : fst (dispatch s d) = Raise e').
    { rewrite dispatch_eq. simpl. now rewrite M'. }
    repeat split; try assumption.
    + rewrite call_eq. simpl. now rewrite D.
    + unfold Regex.called. now rewrite D.
Qed.


End DispatcherFacts.

(** ** Runs of the code on concrete dispatchers *)

Section Runs.
Import Example.

(** C1. The anchoring of [normalize] does not hold for every pattern.
    With the pattern [a|b] the stored text is [^a|b$]; the input [ab] is
    not matched as a whole by [a|b], yet [re.match] finds the alternative
    [^a] at its start, so the handler is the candidate of [ab] and is
    called.  With the pattern [\d+] of the specification's example, the
    input [12] followed by a newline is not matched as a whole either,
    and the handler is its candidate as well, since [$] matches before a
    final newline. *)
Theorem anchoring_broken :
  (PyRe.re_fullmatch "a|b" "ab" = Return false /\
   PyRe.re_search "a|b" "ab" = Return true /\
   normalize "a|b" = "^a|b$" /\
   fst (dispatch "ab" alternation) = Return [h] /\
   called "ab" alternation = [h] /\
   fst (call "ab" alternation) = Return "h") /\
  (PyRe.re_fullmatch "\d+" twelve_newline = Return false /\
   PyRe.re_search "\d+" twelve_newline = Return true /\
   normalize "\d+" = "^\d+$" /\
   fst (dispatch twelve_newline digits) = Return [h] /\
   called twelve_newline digits = [h]) /\
  fst (dispatch "12a" digits) = Return [] /\
  PyRe.modelled "^a|b$" = true /\ PyRe.modelled "^\d+$" = true.
Proof. vm_compute. repeat split. Qed.

(** Anchoring as the specification states it fails at the pattern [a|b]
    and the input [ab]. *)
Lemma anchoring_claim_false : ~ anchoring_claim.
Proof.
  intros C.
  destruct (C "a|b" "ab" h 10%Z [h]) as [N _]; try (vm_compute; reflexivity).
  apply N. now left.
Qed.

(** The failure of C3 as the specification states it: two different
    inputs end in the same exception, so no reading of the exception
    gives the input back. *)
Lemma no_match_does_not_carry_input : ~ no_match_carries_input_claim.
Proof.
  intros [input_of C].
  destruct (C fresh "a" []) as (ea & Ha & Ia);
    [vm_compute; reflexivity|intros f []|].
  destruct (C fresh "b" []) as (eb & Hb & Ib);
    [vm_compute; reflexivity|intros f []|].
  vm_compute in Ha, Hb. inversion Ha; inversion Hb; subst.
  rewrite Ib in Ia. discriminate.
Qed.

(** The failure of C8 as the specification states it: [register] hands
    the handler back, which is a value and not [None]. *)
Lemma register_returns_the_handler : ~ register_idempotent_and_void_claim.
Proof.
  intros C.
  destruct (C "\d+" h 10%Z fresh) as [_ V].
  vm_compute in V. discriminate V.
Qed.

(** The failure of C4 as the specification states it: the text [(] is
    not a regular expression and its registration returns. *)
Lemma invalid_pattern_is_registered : ~ fail_fast_claim.
Proof.
  intros C.
  destruct (C "(" h 10%Z fresh) as [e He].
  - eexists. vm_compute. reflexivity.
  - discriminate He.
Qed.


(** On [42] the candidates of [chain] are [B], [boom] and [last]: [B]
    declines, [boom] raises [ValueError], [last] is not called. *)
Lemma fatal_passthrough_witness :
  fst (dispatch "42" chain) = Return ([B] ++ boom :: [last]) /\
  fst (call "42" chain) = Raise (OtherError "ValueError" "boom") /\
  called "42" chain = [B; boom].
Proof.
  split; [vm_compute; reflexivity|].
  apply (fatal_passthrough _ fn_eq_dec _ _ PyRe.re_match invoke "42" tt chain
           [B] [last] boom (OtherError "ValueError" "boom")).
  - vm_compute. reflexivity.
  - all_decline.
  - reflexivity.
  - reflexivity.
Defined.

(** The only candidate of [42] declines. *)
Lemma no_match_fixed_message_witness :
  fst (dispatch "42" declining) = Return [B] /\
  fst (call "42" declining) = Raise (NotImplementedError Regex.no_match_message) /\
  called "42" declining = [B].
Proof.
  split; [vm_compute; reflexivity|].
  apply (no_match_fixed_message _ fn_eq_dec _ _ PyRe.re_match invoke "42" tt declining [B]).
  - vm_compute. reflexivity.
  - all_decline.
Defined.

(** The text [(] is registered, and the dispatch of [42] raises. *)
Lemma add_never_fails_witness :
  PyRe.invalid "(" /\
  fst (add "(" h 10%Z fresh) = Return tt /\
  fst (Regex.register fn_eq_dec "(" 10%Z h fresh) = Return h /\
  exists r' f' e',
    In (r', f') (PyDict.items (Regex.funcs unbalanced)) /\
    PyRe.re_match r' "42" = Raise e' /\
    fst (dispatch "42" unbalanced) = Raise e' /\
    fst (call "42" unbalanced) = Raise e' /\
    called "42" unbalanced = [].
Proof.
  split; [eexists; vm_compute; reflexivity|].
  destruct (add_never_fails _ fn_eq_dec _ _ PyRe.re_match invoke "(" h 10%Z fresh)
    as [[R _] [[G _] H]].
  split; [exact R|]. split; [exact G|].
  apply (H unbalanced "42" tt "^($" h
           (ReError "missing ), unterminated subpattern")).
  - vm_compute. now left.
  - vm_compute. reflexivity.
Defined.

(** [\d+] and [^\d+$] collide: the second handler is the one kept. *)
Lemma collision_overwrites_witness :
  let self' := after_add "^\d+$" second 10 (after_add "\d+" first 10 fresh) in
  PyDict.get string_dec "^\d+$" (Regex.funcs self') = Some second /\
  fst (dispatch "42" self') = Return [second].
Proof.
  intros self'.
  destruct (collision_overwrites _ fn_eq_dec PyRe.re_match
              "\d+" "^\d+$" first second 10%Z 10%Z [] fresh) as [G _].
  - constructor.
  - reflexivity.
  - discriminate.
  - split; [exact G|vm_compute; reflexivity].
Defined.

(** The dispatcher [two] is reachable, and the sort of its candidates
    returns. *)
Lemma priorities_cover_funcs_witness :
  Regex.reachable fn_eq_dec two /\
  (forall f, In f (PyDict.values (Regex.funcs two)) ->
             Regex.has_priority fn_eq_dec two f) /\
  exists l, fst (Regex.dispatch_iter fn_eq_dec [A; B] two) = Return l.
Proof.
  assert (R : Regex.reachable fn_eq_dec two) by (repeat constructor).
  destruct (priorities_cover_funcs _ fn_eq_dec PyRe.re_match two R) as [V S].
  split; [exact R|]. split; [exact V|].
  apply (S "42" [A; B]). vm_compute. reflexivity.
Defined.

End Runs.

(** * Further properties of regex.py *)

(** ** [normalize] *)

Lemma string_app_assoc (a b c : string) :
  ((a ++ b) ++ c)%string = (a ++ (b ++ c))%string.
Proof. induction a as [|x a IH]; simpl; [reflexivity|now rewrite IH]. Qed.

Lemma lstrip_replicate (c : ascii) (n : nat) (s : string) :
  lstrip c (replicate n c ++ s) = lstrip c s.
Proof.
  induction n as [|n IH]; simpl; [reflexivity|].
  now rewrite Ascii.eqb_refl.
Qed.

Lemma lstrip_fixed (c : ascii) (s : string) :
  starts_with c s = false -> lstrip c s = s.
Proof. destruct s as [|a s]; simpl; [reflexivity|]. now intros ->. Qed.

Lemma rstrip_replicate (c : ascii) (m : nat) (s : string) :
  rstrip c (s ++ replicate m c) = rstrip c s.
Proof.
  revert s. induction m as [|m IH]; intros s; simpl.
  - induction s as [|a s IHs]; simpl; [reflexivity|now rewrite IHs].
  - change (String c (replicate m c)) with (String c "" ++ replicate m c)%string.
    rewrite <- string_app_assoc, IH. apply rstrip_app_same.
Qed.

Lemma rstrip_fixed (c : ascii) (s : string) :
  ends_with c s = false -> rstrip c s = s.
Proof.
  induction s as [|a s IH]; simpl; [reflexivity|].
  destruct s as [|b s].
  - simpl. now intros ->.
  - intros H. rewrite (IH H). reflexivity.
Qed.

Lemma lstrip_split (c : ascii) (s : string) :
  exists n, s = (replicate n c ++ lstrip c s)%string /\
            starts_with c (lstrip c s) = false.
Proof.
  induction s as [|a s IH]; simpl.
  - now exists 0%nat.
  - destruct (Ascii.eqb_spec a c) as [->|N].
    + destruct IH as (n & E & Hs). exists (S n). simpl. now rewrite <- E.
    + exists 0%nat. simpl. split; [reflexivity|].
      now apply Ascii.eqb_neq.
Qed.

Lemma rstrip_split (c : ascii) (s : string) :
  exists m, s = (rstrip c s ++ replicate m c)%string /\
            ends_with c (rstrip c s) = false.
Proof.
  induction s as [|a s IH]; simpl.
  - now exists 0%nat.
  - destruct IH as (m & E & F).
    destruct (rstrip c s) as [|b t] eqn:R.
    + destruct (Ascii.eqb_spec a c) as [->|N].
      * exists (S m). simpl in *. now rewrite <- E.
      * exists m. simpl in *. rewrite <- E. split; [reflexivity|].
        now apply Ascii.eqb_neq.
    + exists m. split; [|exact F].
      rewrite E at 1. reflexivity.
Qed.

Lemma rstrip_keeps_start (c x : ascii) (s : string) :
  starts_with x s = false -> starts_with x (rstrip c s) = false.
Proof.
  destruct s as [|a s]; simpl; [reflexivity|]. intros H.
  destruct (rstrip c s); [|exact H].
  destruct (Ascii.eqb a c); [reflexivity|exact H].
Qed.

Lemma lstrip_other_tail (c d : ascii) (m : nat) (s : string) :
  d <> c -> starts_with c s = false ->
  lstrip c (s ++ replicate m d) = (s ++ replicate m d)%string.
Proof.
  intros N H. apply lstrip_fixed. destruct s as [|a s]; [|exact H].
  destruct m; simpl; [reflexivity|]. now apply Ascii.eqb_neq.
Qed.

Lemma normalize_of_parts (n m : nat) (core : string) :
  starts_with "^" core = false ->
  ends_with "$" core = false ->
  normalize (replicate n "^" ++ core ++ replicate m "$")
    = ("^" ++ core ++ "$")%string.
Proof.
  intros Hs He. unfold normalize.
  rewrite lstrip_replicate, lstrip_other_tail by (discriminate || exact Hs).
  now rewrite rstrip_replicate, rstrip_fixed.
Qed.

Lemma parts_exist (r : string) :
  exists (n m : nat) (core : string),
    r = (replicate n "^" ++ core ++ replicate m "$")%string /\
    starts_with "^" core = false /\
    ends_with "$" core = false.
Proof.
  destruct (lstrip_split "^" r) as (n & En & Sn).
  destruct (rstrip_split "$" (lstrip "^" r)) as (m & Em & Fm).
  exists n, m, (rstrip "$" (lstrip "^" r)). split; [|split].
  - now rewrite <- Em.
  - now apply rstrip_keeps_start.
  - exact Fm.
Qed.

(** X1. [normalize] keeps exactly the text between the leading carets and
    the trailing dollar signs: every text is some carets, a core that
    does not start with a caret nor end with a dollar sign, and some
    dollar signs, and the normal form of such a text is the core between
    one caret and one dollar sign. *)
Theorem normalize_core :
  (forall (n m : nat) (core : string),
     starts_with "^" core = false ->
     ends_with "$" core = false ->
     normalize (replicate n "^" ++ core ++ replicate m "$")
       = ("^" ++ core ++ "$")%string) /\
  (forall r : string,
     exists (n m : nat) (core : string),
       r = (replicate n "^" ++ core ++ replicate m "$")%string /\
       starts_with "^" core = false /\
       ends_with "$" core = false).
Proof. split; [exact normalize_of_parts|exact parts_exist]. Qed.

(** X2. [normalize] is idempotent: a normal form is its own normal form,
    as the second example of the docstring shows for one text. *)
Theorem normalize_idempotent (r : string) :
  normalize (normalize r) = normalize r.
Proof.
  destruct (parts_exist r) as (n & m & core & E & Hs & He).
  rewrite E, (normalize_of_parts n m core Hs He).
  exact (normalize_of_parts 1 1 core Hs He).
Qed.

(** ** The dispatcher *)

Section DispatcherMore.
Variable handler : Type.
Variable handler_eq_dec : forall f g : handler, {f = g} + {f <> g}.
Variables value args : Type.
Variable re_match : string -> string -> result bool.
Variable invoke : handler -> string -> args -> result value.

Local Abbreviation Disp := (Regex.RegexDispatcher handler).
Local Abbreviation add := (Regex.add handler_eq_dec).
Local Abbreviation matching := (Regex.matching re_match).
Local Abbreviation dispatch := (Regex.dispatch handler_eq_dec re_match).
Local Abbreviation call_loop := (Regex.call_loop invoke).
Local Abbreviation call := (Regex.call handler_eq_dec re_match invoke).
Local Abbreviation called := (Regex.called handler_eq_dec re_match invoke).
Local Abbreviation reachable := (Regex.reachable handler_eq_dec).
Local Abbreviation matched := (Regex.matched re_match).
Local Abbreviation priority_of := (Regex.priority_of handler_eq_dec).
Local Abbreviation prio_get := (PyDict.get handler_eq_dec).
Local Abbreviation declines := (Regex.declines invoke).

(** X3. What [add] changes and what it keeps.  After
    [add(regex, func, priority)] the normalized pattern maps to [func]
    and every other pattern maps to what it mapped to; [func] has the
    new priority, also for the patterns it was registered under before,
    and every other handler keeps its priority; no pattern is lost and
    the name is kept. *)
Theorem add_frame (regex : string) (func : handler) (priority : Z) (self : Disp) :
  let self' := snd (add regex func priority self) in
  Regex.name self' = Regex.name self /\
  PyDict.get string_dec (normalize regex) (Regex.funcs self') = Some func /\
  (forall k, k <> normalize regex ->
     PyDict.get string_dec k (Regex.funcs self')
       = PyDict.get string_dec k (Regex.funcs self)) /\
  priority_of self' func = priority /\
  (forall g, g <> func ->
     prio_get g (Regex.priorities self') = prio_get g (Regex.priorities self)) /\
  incl (PyDict.keys (Regex.funcs self)) (PyDict.keys (Regex.funcs self')).
Proof.
  simpl. repeat split.
  - apply get_set_same.
  - intros k N. now apply get_set_other.
  - unfold Regex.priority_of, Regex.key_value. simpl. now rewrite get_set_same.
  - intros g N. now apply get_set_other.
  - rewrite keys_set. destruct (in_dec _ _ _); [apply incl_refl|apply incl_appl, incl_refl].
Qed.

(** *** Stability of the sort *)

Section Stable.
Variable key : handler -> option Z.
Variable p : Z.

Local Abbreviation at_p := (fun f : handler => (Regex.key_value key f =? p)%Z).

Lemma insert_desc_stable (x : handler) (l l' : list handler) :
  Regex.insert_desc key x l = Return l' ->
  filter at_p l' = filter at_p (x :: l).
Proof.
  revert l'. induction l as [|y l IH]; simpl; intros l' H.
  - now inversion H.
  - destruct (Regex.key_lt (key x) (key y)) as [b|e] eqn:E; simpl in H;
      [|discriminate].
    apply key_lt_kz in E. destruct b.
    + destruct (Regex.insert_desc key x l) as [r|e] eqn:Er; simpl in H;
        [|discriminate].
      inversion H; subst. simpl. rewrite (IH r eq_refl). simpl.
      symmetry in E. apply Z.ltb_lt in E.
      destruct (Z.eqb_spec (Regex.key_value key x) p) as [Ex|Nx];
        destruct (Z.eqb_spec (Regex.key_value key y) p) as [Ey|Ny];
        try reflexivity.
      lia.
    + now inversion H.
Qed.

Lemma sorted_reverse_stable (l l' : list handler) :
  Regex.sorted_reverse key l = Return l' -> filter at_p l' = filter at_p l.
Proof.
  revert l'. induction l as [|x l IH]; simpl; intros l' H.
  - now inversion H.
  - destruct (Regex.sorted_reverse key l) as [r|e]; simpl in H; [|discriminate].
    rewrite (insert_desc_stable _ _ _ H). simpl. now rewrite (IH r eq_refl).
Qed.

End Stable.

(** X4. Equal priorities keep the order of the registry: among the
    candidates [dispatch] returns, those of any one priority come in the
    order in which the iteration over [funcs] meets their patterns. *)
Theorem equal_priorities_keep_order (s : string) (self : Disp) (l : list handler) :
  fst (dispatch s self) = Return l ->
  forall p : Z,
    filter (fun f => (priority_of self f =? p)%Z) l
      = filter (fun f => (priority_of self f =? p)%Z) (matched self s).
Proof.
  rewrite dispatch_eq. simpl.
  destruct (matching (PyDict.items (Regex.funcs self)) s) as [fs|e] eqn:E;
    simpl; [|discriminate].
  apply matching_matched in E. subst fs. intros H p.
  exact (sorted_reverse_stable _ p _ _ H).
Qed.

(** *** The outcome of a call *)

Lemma call_loop_outcome (fs : list handler) (s : string) (a : args) :
  (fst (call_loop fs s a) = fs /\
   (forall f, In f fs -> declines f s a) /\
   snd (call_loop fs s a) = Raise (NotImplementedError Regex.no_match_message)) \/
  (exists pre f post,
     fs = pre ++ f :: post /\
     fst (call_loop fs s a) = pre ++ [f] /\
     (forall g, In g pre -> declines g s a) /\
     ~ declines f s a /\
     snd (call_loop fs s a) = invoke f s a).
Proof.
  induction fs as [|f fs IH]; simpl.
  - left. repeat split. intros f [].
  - destruct (invoke f s a) as [v|e] eqn:Ef.
    + right. exists [], f, fs. simpl. repeat split; try easy.
      intros [m Hm]. congruence.
    + destruct (is_NotImplementedError e) eqn:Ee.
      * assert (D : declines f s a).
        { destruct e; try discriminate. now exists msg. }
        destruct (call_loop fs s a) as [c r] eqn:El. simpl in *.
        destruct IH as [(Hc & Hd & Hr)|(pre & g & post & Hfs & Hc & Hd & Hn & Hr)].
        -- left. subst. repeat split; try easy.
           intros g [<-|I]; [exact D|now apply Hd].
        -- right. exists (f :: pre), g, post. subst. simpl. repeat split; try easy.
           intros g' [<-|I]; [exact D|now apply Hd].
      * right. exists [], f, fs. simpl. repeat split; try easy.
        intros [m Hm]. rewrite Hm in Ef. inversion Ef; subst. discriminate.
Qed.

(** X5. The outcome of [__call__] once [dispatch] has returned the
    candidates.  Either every candidate has been called and has raised
    [NotImplementedError], and the call raises the no-match error; or the
    candidates up to the first one that does not raise
    [NotImplementedError] have been called, in order and once each, no
    later candidate has, and the call gives what that handler gave, its
    value or its exception, unchanged.  A handler that is called is one
    whose stored pattern matches the input. *)
Theorem call_outcome (s : string) (a : args) (self : Disp) (l : list handler) :
  fst (dispatch s self) = Return l ->
  (forall f, In f (called s a self) -> In f (matched self s)) /\
  ((called s a self = l /\
    (forall f, In f l -> declines f s a) /\
    fst (call s a self) = Raise (NotImplementedError Regex.no_match_message)) \/
   (exists pre f post,
      l = pre ++ f :: post /\
      called s a self = pre ++ [f] /\
      (forall g, In g pre -> declines g s a) /\
      ~ declines f s a /\
      fst (call s a self) = invoke f s a)).
Proof.
  intros D.
  rewrite (call_result _ _ _ _ _ _ s a self l D), (called_eq _ _ _ _ _ _ s a self l D).
  destruct (dispatch_sound _ _ _ _ _ _ D) as [P _].
  split; [|apply call_loop_outcome].
  intros f I. apply (Permutation_in _ (Permutation_sym P)).
  destruct (call_loop_outcome l s a) as [(Hc & _)|(pre & g & post & Hl & Hc & _)];
    rewrite Hc in I; [exact I|].
  subst l. apply in_app_iff in I. apply in_app_iff.
  destruct I as [I|[<-|[]]]; [now left|right; now left].
Qed.

Lemma matching_raise_inv (items : list (string * handler)) (s : string) (e : exn) :
  matching items s = Raise e ->
  exists r f, In (r, f) items /\ re_match r s = Raise e.
Proof.
  induction items as [|[r f] d IH]; simpl; [discriminate|].
  destruct (re_match r s) as [m|e0] eqn:E0; simpl.
  - destruct (matching d s) as [l|e1]; simpl; [discriminate|].
    intros H. inversion H; subst.
    destruct (IH eq_refl) as (r' & f' & I & R). exists r', f'. auto.
  - intros H. inversion H; subst. exists r, f. auto.
Qed.

(** X6. On a dispatcher built by registrations, [dispatch] and
    [__call__] raise at the candidate computation only with an exception
    that [re.match] raises on a stored pattern: the sort does not fail. *)
Theorem dispatch_raises_only_from_re_match (s : string) (self : Disp) (e : exn) :
  reachable self ->
  fst (dispatch s self) = Raise e ->
  exists r f, In (r, f) (PyDict.items (Regex.funcs self)) /\
              re_match r s = Raise e.
Proof.
  intros R. rewrite dispatch_eq. simpl.
  destruct (matching (PyDict.items (Regex.funcs self)) s) as [fs|e'] eqn:E; simpl.
  - destruct (sorted_reverse_total handler
                (fun f => prio_get f (Regex.priorities self)) fs) as [l Hl].
    + intros f I. apply (reachable_has_priority _ _ _ R).
      apply matched_values with (re_match := re_match) (s := s).
      now rewrite <- (matching_matched _ _ _ _ _ E).
    + rewrite Hl. discriminate.
  - intros H. inversion H; subst. now apply matching_raise_inv.
Qed.

End DispatcherMore.

(** * Properties of backends/hdf.py *)

Lemma full_node_path_slashes (n : string) :
  (exists rest, HDF.full_node_path n = String "/" rest /\
                starts_with "/" rest = false) /\
  HDF.full_node_path (HDF.full_node_path n) = HDF.full_node_path n /\
  (forall k : nat,
     HDF.full_node_path (replicate k "/" ++ n) = HDF.full_node_path n).
Proof.
  unfold HDF.full_node_path. simpl.
  destruct (lstrip_split "/" n) as (k0 & _ & Hs).
  repeat split.
  - eauto.
  - now rewrite (lstrip_fixed _ _ Hs).
  - intros k. now rewrite lstrip_replicate.
Qed.

(** X7. [full_node_path] gives a path with exactly one leading slash:
    the result is a slash followed by a text that does not start with a
    slash; it is its own full path, and leading slashes of the argument
    make no difference. *)
Theorem full_node_path_canonical (n : string) :
  (exists rest, HDF.full_node_path n = String "/" rest /\
                starts_with "/" rest = false) /\
  HDF.full_node_path (HDF.full_node_path n) = HDF.full_node_path n /\
  (forall k : nat,
     HDF.full_node_path (replicate k "/" ++ n) = HDF.full_node_path n).
Proof. exact (full_node_path_slashes n). Qed.

Section HDFFacts.
Variable obj : Type.
Variable kwargs : Type.
Variable no_kwargs : kwargs.
Variable ext : HDF.call obj kwargs -> list (HDF.call obj kwargs) -> result obj.
Variable specific : HDF.call obj kwargs -> bool.
Variable names_of : obj -> result (list string).

Local Abbreviation World := (HDF.world obj kwargs).
Local Abbreviation File := (HDF.HDFFile obj kwargs).
Local Abbreviation Table := (HDF.HDFTable kwargs).
Local Abbreviation external := (HDF.external ext).
Local Abbreviation file_create := (HDF.file_create ext).
Local Abbreviation file_cleanup := (HDF.file_cleanup ext).
Local Abbreviation file_shape := (HDF.file_shape ext).
Local Abbreviation discover_file := (HDF.discover_file ext).
Local Abbreviation file_keys := (HDF.file_keys ext names_of).
Local Abbreviation file_contains := (HDF.file_contains ext names_of).
Local Abbreviation file_get_table := (HDF.file_get_table (obj := obj) no_kwargs).
Local Abbreviation file_getitem := (HDF.file_getitem (obj := obj) no_kwargs).
Local Abbreviation table_enter := (HDF.table_enter ext).
Local Abbreviation table_exit := (HDF.table_exit ext).
Local Abbreviation with_table := (HDF.with_table ext).
Local Abbreviation append_object_to_store := (HDF.append_object_to_store no_kwargs ext).
Local Abbreviation append_table_to_table := (HDF.append_table_to_table ext).
Local Abbreviation drop_hdffile := (HDF.drop_hdffile ext).
Local Abbreviation HDFFile_init := (HDF.HDFFile_init ext specific).

Lemma nth_error_set_rsrc_same (a : nat) (r : obj) (h : list File) (f : File) :
  nth_error h a = Some f ->
  nth_error (HDF.set_rsrc a r h) a = Some (HDF.reopened f r).
Proof.
  revert a. induction h as [|g h IH]; intros [|a]; simpl; try discriminate.
  - intros E. now inversion E.
  - apply IH.
Qed.

Lemma nth_error_set_rsrc_other (a b : nat) (r : obj) (h : list File) :
  a <> b -> nth_error (HDF.set_rsrc a r h) b = nth_error h b.
Proof.
  revert a b. induction h as [|g h IH]; intros [|a] [|b] N; simpl;
    try reflexivity; try contradiction.
  apply IH. congruence.
Qed.

Lemma set_rsrc_twice (a : nat) (r1 r2 : obj) (h : list File) :
  HDF.set_rsrc a r2 (HDF.set_rsrc a r1 h) = HDF.set_rsrc a r2 h.
Proof.
  revert a. induction h as [|g h IH]; intros [|a]; simpl; try reflexivity.
  now rewrite IH.
Qed.

Lemma file_create_eq (a : nat) (w : World) (f : File) :
  nth_error (HDF.heap w) a = Some f ->
  file_create a w =
  let c := HDF.Create (HDF.rsrc f) (HDF.pathname_of f) in
  match ext c (HDF.log w) with
  | Return h =>
      (Return h, HDF.mkWorld (HDF.set_rsrc a h (HDF.heap w)) (HDF.log w ++ [c]))
  | Raise e => (Raise e, HDF.mkWorld (HDF.heap w) (HDF.log w ++ [c]))
  end.
Proof.
  intros E. unfold HDF.file_create, HDF.bind, HDF.load, HDF.external,
    HDF.assign_rsrc, HDF.ret. rewrite E. simpl.
  destruct (ext _ _); reflexivity.
Qed.

Lemma file_cleanup_eq (a : nat) (w : World) (f : File) :
  nth_error (HDF.heap w) a = Some f ->
  file_cleanup a w =
  let c := HDF.Cleanup (HDF.rsrc f) in
  (match ext c (HDF.log w) with
   | Return _ => Return tt
   | Raise e => Raise e
   end, HDF.mkWorld (HDF.heap w) (HDF.log w ++ [c])).
Proof.
  intros E. unfold HDF.file_cleanup, HDF.bind, HDF.load, HDF.external, HDF.ret.
  rewrite E. simpl. destruct (ext _ _); reflexivity.
Qed.

Lemma table_enter_eq (t : Table) (w : World) (f : File) :
  nth_error (HDF.heap w) (HDF.parent t) = Some f ->
  table_enter t w =
  let c1 := HDF.Create (HDF.rsrc f) (HDF.pathname_of f) in
  match ext c1 (HDF.log w) with
  | Return h =>
      let c2 := HDF.GetTable h (HDF.table_datapath t) (HDF.table_kwargs t) in
      (ext c2 (HDF.log w ++ [c1]),
       HDF.mkWorld (HDF.set_rsrc (HDF.parent t) h (HDF.heap w))
         ((HDF.log w ++ [c1]) ++ [c2]))
  | Raise e => (Raise e, HDF.mkWorld (HDF.heap w) (HDF.log w ++ [c1]))
  end.
Proof.
  intros E. unfold HDF.table_enter, HDF.bind. rewrite (file_create_eq _ _ _ E).
  simpl. destruct (ext _ _); reflexivity.
Qed.

(** X8. [discover(f)] on an [HDFFile] and the property [f.shape] are the
    same computation: the same calls to the outside, the same result and
    the same state of the file afterwards. *)
Theorem discover_file_is_shape (a : nat) (w : World) :
  discover_file a w = file_shape a w.
Proof.
  unfold HDF.discover_file, HDF.file_shape, HDF.with_, HDF.file_enter.
  destruct (nth_error (HDF.heap w) a) as [f|] eqn:E.
  - rewrite (file_create_eq _ _ _ E). simpl.
    destruct (ext _ _) as [h|e]; [|reflexivity].
    unfold HDF.bind, HDF.load. simpl.
    now rewrite (nth_error_set_rsrc_same _ h _ _ E).
  - unfold HDF.file_create, HDF.bind, HDF.load. now rewrite E.
Qed.

Lemma py_or_falsy (a b : option string) :
  HDF.falsy a = true -> HDF.py_or a b = b.
Proof. destruct a as [[|c d]|]; simpl; congruence. Qed.

Lemma py_or_truthy (d : string) (b : option string) :
  d <> "" -> HDF.py_or (Some d) b = Some d.
Proof. destruct d; simpl; congruence. Qed.

(** X9. The datapath of [get_table] and of indexing a file.  An argument
    that is a string and not empty is the datapath of the table.  With no
    argument, [None] or the empty string, the datapath is the file's own,
    even an empty one; when the file has none, [ValueError] is raised.
    In no case is the store opened or anything else called. *)
Theorem get_table_resolves (a : nat) (dp : option string) (w : World) (f : File) :
  nth_error (HDF.heap w) a = Some f ->
  (HDF.falsy dp = true -> HDF.datapath f = None ->
   file_get_table a dp w
     = (Raise (OtherError "ValueError" HDF.get_table_message), w)) /\
  (HDF.falsy dp = true -> forall d, HDF.datapath f = Some d ->
   file_get_table a dp w = (Return (HDF.mkHDFTable a d no_kwargs), w)) /\
  (forall d, dp = Some d -> d <> "" ->
   file_get_table a dp w = (Return (HDF.mkHDFTable a d no_kwargs), w)) /\
  file_getitem a dp w = file_get_table a dp w.
Proof.
  intros E. unfold HDF.file_getitem, HDF.file_get_table, HDF.bind, HDF.load.
  rewrite E. repeat split.
  - intros F N. now rewrite (py_or_falsy _ _ F), N.
  - intros F d D. now rewrite (py_or_falsy _ _ F), D.
  - intros d -> N. now rewrite (py_or_truthy _ _ N).
Qed.

(** X10. [append] to a store.  Without a datapath, neither in the call
    nor in the store, [ValueError] is raised before the store is opened:
    nothing is called.  When the call returns, it returns a table of this
    store whose datapath is the argument, or the store's own when the
    argument is [None] or empty. *)
Theorem append_to_store_datapath (s : nat) (data : obj) (dp : option string)
    (kw : kwargs) (w : World) (f : File) :
  nth_error (HDF.heap w) s = Some f ->
  (HDF.falsy dp = true -> HDF.datapath f = None ->
   append_object_to_store s data dp kw w
     = (Raise (OtherError "ValueError" HDF.append_message), w)) /\
  (forall t w', append_object_to_store s data dp kw w = (Return t, w') ->
   HDF.parent t = s /\
   HDF.py_or dp (HDF.datapath f) = Some (HDF.table_datapath t)).
Proof.
  intros E.
  assert (U : append_object_to_store s data dp kw w =
              match HDF.py_or dp (HDF.datapath f) with
              | Some d =>
                  match with_table (HDF.mkHDFTable s d no_kwargs)
                          (fun handle => external (HDF.Append handle data (Some d) kw)) w
                  with
                  | (Return _, w1) => (Return (HDF.mkHDFTable s d no_kwargs), w1)
                  | (Raise e, w1) => (Raise e, w1)
                  end
              | None => (Raise (OtherError "ValueError" HDF.append_message), w)
              end).
  { unfold HDF.append_object_to_store, HDF.bind, HDF.load. rewrite E.
    destruct (HDF.py_or dp (HDF.datapath f)); reflexivity. }
  rewrite U. split.
  - intros F N. now rewrite (py_or_falsy _ _ F), N.
  - intros t w'. destruct (HDF.py_or dp (HDF.datapath f)) as [d|];
      [|discriminate].
    destruct (with_table _ _ w) as [[v|e] w1]; intros H; inversion H; subst.
    auto.
Qed.


(** X12. A [with] block on an [HDFFile].  When [create] returns a
    handle, the file keeps it as its resource, the body is given it, and
    it is this handle, not the resource the file had, that is cleaned up
    when the block is left; an exception of the clean-up replaces the
    outcome of the body. *)
Theorem file_block_closes_new_handle (a : nat) (w : World) (f : File) (h : obj) :
  nth_error (HDF.heap w) a = Some f ->
  let c1 := HDF.Create (HDF.rsrc f) (HDF.pathname_of f) in
  let c2 := HDF.Discover h in
  let c3 := HDF.Cleanup h in
  ext c1 (HDF.log w) = Return h ->
  file_shape a w
    = (match ext c3 (HDF.log w ++ [c1; c2]) with
       | Return _ => ext c2 (HDF.log w ++ [c1])
       | Raise e => Raise e
       end,
       HDF.mkWorld (HDF.set_rsrc a h (HDF.heap w)) (HDF.log w ++ [c1; c2; c3])).
Proof.
  intros E c1 c2 c3 H1.
  unfold HDF.file_shape, HDF.with_, HDF.file_enter, HDF.file_exit.
  rewrite (file_create_eq _ _ _ E). simpl. fold c1. rewrite H1.
  cbn [HDF.heap HDF.log].
  rewrite (file_cleanup_eq a _ (HDF.reopened f h))
    by (cbn [HDF.heap]; apply nth_error_set_rsrc_same; exact E).
  cbn [HDF.heap HDF.log HDF.rsrc HDF.reopened]. fold c2 c3.
  rewrite <- !app_assoc. simpl.
  destruct (ext c3 _); reflexivity.
Qed.

(** X13. A [with] block on an [HDFTable] whose body is one call on the
    node: every function of the module that works on a table.  When
    [create] and [get_table] return, the parent keeps the new handle, the
    body is given the node, and the handle is cleaned up when the block
    is left whether the call of the body returned or raised; the outcome
    is that of the body's call unless the clean-up raises. *)
Theorem table_block_always_cleans (t : Table)
    (mk : obj -> HDF.call obj kwargs) (w : World) (f : File) (h node : obj) :
  nth_error (HDF.heap w) (HDF.parent t) = Some f ->
  let c1 := HDF.Create (HDF.rsrc f) (HDF.pathname_of f) in
  let c2 := HDF.GetTable h (HDF.table_datapath t) (HDF.table_kwargs t) in
  let c3 := mk node in
  let c4 := HDF.Cleanup h in
  ext c1 (HDF.log w) = Return h ->
  ext c2 (HDF.log w ++ [c1]) = Return node ->
  with_table t (fun x => external (mk x)) w
    = (match ext c4 (HDF.log w ++ [c1; c2; c3]) with
       | Return _ => ext c3 (HDF.log w ++ [c1; c2])
       | Raise e => Raise e
       end,
       HDF.mkWorld (HDF.set_rsrc (HDF.parent t) h (HDF.heap w))
         (HDF.log w ++ [c1; c2; c3; c4])).
Proof.
  intros E c1 c2 c3 c4 H1 H2.
  unfold HDF.with_table, HDF.with_, HDF.table_exit.
  rewrite (table_enter_eq _ _ _ E). cbn zeta. fold c1. rewrite H1.
  fold c2. rewrite H2. unfold HDF.external. cbn [HDF.heap HDF.log].
  rewrite (file_cleanup_eq (HDF.parent t) _ (HDF.reopened f h))
    by (cbn [HDF.heap]; apply nth_error_set_rsrc_same; exact E).
  cbn [HDF.heap HDF.log HDF.rsrc HDF.reopened]. fold c3 c4.
  rewrite <- !app_assoc. simpl.
  destruct (ext c4 _); reflexivity.
Qed.

(** X14. Entering a table that cannot be entered.  When [create] raises,
    the block raises the same and nothing else is called.  When [create]
    returns a handle and [get_table] raises, the block raises the same:
    the body is not run and, [__exit__] not being called, the handle that
    was just created is not cleaned up. *)
Theorem table_enter_failure_skips_cleanup (B : Type) (t : Table)
    (body : obj -> HDF.IO obj kwargs B) (w : World) (f : File) :
  nth_error (HDF.heap w) (HDF.parent t) = Some f ->
  let c1 := HDF.Create (HDF.rsrc f) (HDF.pathname_of f) in
  (forall e, ext c1 (HDF.log w) = Raise e ->
     with_table t body w
       = (Raise e, HDF.mkWorld (HDF.heap w) (HDF.log w ++ [c1]))) /\
  (forall h e,
     let c2 := HDF.GetTable h (HDF.table_datapath t) (HDF.table_kwargs t) in
     ext c1 (HDF.log w) = Return h ->
     ext c2 (HDF.log w ++ [c1]) = Raise e ->
     with_table t body w
       = (Raise e,
          HDF.mkWorld (HDF.set_rsrc (HDF.parent t) h (HDF.heap w))
            (HDF.log w ++ [c1; c2]))).
Proof.
  intros E c1. unfold HDF.with_table, HDF.with_.
  rewrite (table_enter_eq _ _ _ E). cbn zeta. fold c1. split.
  - intros e H1. now rewrite H1.
  - intros h e H1 H2. rewrite H1, H2.
    now rewrite <- app_assoc.
Qed.

(** X15. [drop] of an [HDFFile] cleans the resource up and then removes
    the file at the path name taken at construction; when the clean-up
    raises, the file is not removed. *)
Theorem drop_hdffile_order (a : nat) (w : World) (f : File) :
  nth_error (HDF.heap w) a = Some f ->
  let c1 := HDF.Cleanup (HDF.rsrc f) in
  let c2 := HDF.Remove (HDF.pathname_of f) in
  (forall e, ext c1 (HDF.log w) = Raise e ->
     drop_hdffile a w
       = (Raise e, HDF.mkWorld (HDF.heap w) (HDF.log w ++ [c1]))) /\
  (forall x, ext c1 (HDF.log w) = Return x ->
     drop_hdffile a w
       = (match ext c2 (HDF.log w ++ [c1]) with
          | Return _ => Return tt
          | Raise e => Raise e
          end,
          HDF.mkWorld (HDF.heap w) (HDF.log w ++ [c1; c2]))).
Proof.
  intros E c1 c2.
  unfold HDF.drop_hdffile, HDF.cleanup_hdffile, HDF.bind, HDF.load,
    HDF.external, HDF.ret. rewrite E. cbn [HDF.heap HDF.log]. fold c1. split.
  - intros e H1. now rewrite H1.
  - intros x H1. rewrite H1. cbn [HDF.heap HDF.log]. rewrite E. fold c2.
    cbn [HDF.heap HDF.log]. rewrite <- app_assoc. simpl.
    destruct (ext c2 _); reflexivity.
Qed.

(** X16. Membership in an [HDFFile] does not depend on leading slashes:
    a key with more leading slashes gives the same answer and the same
    calls, and every name that [discover] reports is contained in the
    file, with any number of leading slashes put before it. *)
Theorem contains_ignores_leading_slashes (a : nat) (key : string) (w : World) :
  (forall k : nat,
     file_contains a (replicate k "/" ++ key) w = file_contains a key w) /\
  (forall (ds : obj) (ns : list string) (w1 : World),
     discover_file a w = (Return ds, w1) ->
     names_of ds = Return ns ->
     In key ns ->
     forall k : nat,
       file_contains a (replicate k "/" ++ key) w = (Return true, w1)).
Proof.
  split.
  - intros k. unfold HDF.file_contains.
    now rewrite (proj2 (proj2 (full_node_path_slashes key)) k).
  - intros ds ns w1 D N I k.
    unfold HDF.file_contains, HDF.file_keys, HDF.bind, HDF.lift, HDF.ret.
    rewrite D, N. f_equal. f_equal.
    apply existsb_exists. exists (HDF.full_node_path key). split.
    + now apply in_map.
    + rewrite (proj2 (proj2 (full_node_path_slashes key)) k).
      apply String.eqb_refl.
Qed.

Lemma table_exit_eq (t : Table) (w : World) (f : File) :
  nth_error (HDF.heap w) (HDF.parent t) = Some f ->
  table_exit t w =
  let c := HDF.Cleanup (HDF.rsrc f) in
  (match ext c (HDF.log w) with
   | Return _ => Return tt
   | Raise e => Raise e
   end, HDF.mkWorld (HDF.heap w) (HDF.log w ++ [c])).
Proof. apply file_cleanup_eq. Qed.

(** X17. Appending a table to a table, when every call returns.  The
    target is entered, then the source, the node of the source is
    appended to the node of the target, and the blocks are left in the
    reverse order.  [create] and [cleanup] act on the resource the parent
    file holds at that moment.  With two different parent files each
    handle is cleaned up once, the source's first.  When both tables
    have the same parent file, the second [create] is given the handle
    the first one returned and replaces it in the file, so the handle of
    the second [create] is cleaned up twice and that of the first is
    not cleaned up. *)
Theorem append_table_to_table_calls (t data : Table) (kw : kwargs) (w : World)
    (f1 f2 : File) (h1 n1 h2 n2 x y z : obj) :
  let a1 := HDF.parent t in
  let a2 := HDF.parent data in
  nth_error (HDF.heap w) a1 = Some f1 ->
  nth_error (HDF.heap w) a2 = Some f2 ->
  let shared := Nat.eqb a1 a2 in
  let c1 := HDF.Create (HDF.rsrc f1) (HDF.pathname_of f1) in
  let c2 := HDF.GetTable h1 (HDF.table_datapath t) (HDF.table_kwargs t) in
  let c3 := HDF.Create (if shared then h1 else HDF.rsrc f2) (HDF.pathname_of f2) in
  let c4 := HDF.GetTable h2 (HDF.table_datapath data) (HDF.table_kwargs data) in
  let c5 := HDF.Append n1 n2 None kw in
  let c6 := HDF.Cleanup h2 in
  let c7 := HDF.Cleanup (if shared then h2 else h1) in
  let l := HDF.log w in
  ext c1 l = Return h1 ->
  ext c2 (l ++ [c1]) = Return n1 ->
  ext c3 (l ++ [c1; c2]) = Return h2 ->
  ext c4 (l ++ [c1; c2; c3]) = Return n2 ->
  ext c5 (l ++ [c1; c2; c3; c4]) = Return x ->
  ext c6 (l ++ [c1; c2; c3; c4; c5]) = Return y ->
  ext c7 (l ++ [c1; c2; c3; c4; c5; c6]) = Return z ->
  append_table_to_table t data kw w
    = (Return t,
       HDF.mkWorld (HDF.set_rsrc a2 h2 (HDF.set_rsrc a1 h1 (HDF.heap w)))
         (l ++ [c1; c2; c3; c4; c5; c6; c7])).
Proof.
  intros a1 a2 E1 E2 shared c1 c2 c3 c4 c5 c6 c7 l H1 H2 H3 H4 H5 H6 H7.
  (* the source's parent after the target has been entered *)
  assert (E2' : exists f2',
             nth_error (HDF.set_rsrc a1 h1 (HDF.heap w)) a2 = Some f2' /\
             HDF.rsrc f2' = (if shared then h1 else HDF.rsrc f2) /\
             HDF.pathname_of f2' = HDF.pathname_of f2).
  { unfold shared. destruct (Nat.eqb_spec a1 a2) as [Ea|Na].
    - exists (HDF.reopened f1 h1). rewrite <- Ea.
      rewrite (nth_error_set_rsrc_same _ _ _ _ E1).
      assert (f1 = f2) by congruence. subst f2. auto.
    - exists f2. rewrite (nth_error_set_rsrc_other _ _ _ _ Na). auto. }
  destruct E2' as (f2' & E2' & R2 & P2).
  (* the target's parent when its block is left *)
  assert (E1' : exists f1',
             nth_error (HDF.set_rsrc a2 h2 (HDF.set_rsrc a1 h1 (HDF.heap w))) a1
               = Some f1' /\
             HDF.rsrc f1' = (if shared then h2 else h1)).
  { unfold shared. destruct (Nat.eqb_spec a1 a2) as [Ea|Na].
    - exists (HDF.reopened f2' h2). split; [|reflexivity].
      pose proof (nth_error_set_rsrc_same a2 h2 _ _ E2') as Q.
      now rewrite <- Ea in Q at 2.
    - exists (HDF.reopened f1 h1).
      rewrite (nth_error_set_rsrc_other _ _ _ _ (not_eq_sym Na)).
      now rewrite (nth_error_set_rsrc_same _ _ _ _ E1). }
  destruct E1' as (f1' & E1' & R1).
  subst a1 a2.
  unfold HDF.append_table_to_table, HDF.bind, HDF.ret, HDF.with_table, HDF.with_.
  rewrite (table_enter_eq t w f1 E1). cbn zeta. fold c1 l. rewrite H1.
  fold c2. rewrite H2.
  rewrite (table_enter_eq data
             (HDF.mkWorld (HDF.set_rsrc (HDF.parent t) h1 (HDF.heap w)) ((l ++ [c1]) ++ [c2]))
             f2' E2').
  cbn zeta. cbn [HDF.heap HDF.log]. rewrite R2, P2. fold c3.
  rewrite <- !app_assoc. cbn [app]. rewrite H3. fold c4.
  rewrite <- !app_assoc. cbn [app]. rewrite H4.
  unfold HDF.external. cbn [HDF.heap HDF.log]. fold c5.
  rewrite <- !app_assoc. cbn [app]. rewrite H5.
  rewrite (table_exit_eq data
             (HDF.mkWorld (HDF.set_rsrc (HDF.parent data) h2 (HDF.set_rsrc (HDF.parent t) h1 (HDF.heap w)))
                (l ++ [c1; c2; c3; c4; c5]))
             (HDF.reopened f2' h2)
             (nth_error_set_rsrc_same (HDF.parent data) h2 _ _ E2')).
  cbn zeta. cbn [HDF.heap HDF.log HDF.rsrc HDF.reopened]. fold c6.
  rewrite <- !app_assoc. cbn [app]. rewrite H6.
  rewrite (table_exit_eq t
             (HDF.mkWorld (HDF.set_rsrc (HDF.parent data) h2 (HDF.set_rsrc (HDF.parent t) h1 (HDF.heap w)))
                (l ++ [c1; c2; c3; c4; c5; c6]))
             f1' E1').
  cbn zeta. cbn [HDF.heap HDF.log]. rewrite R1. fold c7.
  rewrite <- !app_assoc. cbn [app]. rewrite H7. reflexivity.
Qed.

End HDFFacts.

(** ** Runs for the further properties *)

(** Two carets, the core [\d+] and one dollar sign. *)
Lemma normalize_core_witness : normalize "^^\d+$" = "^\d+$".
Proof.
  exact (proj1 normalize_core 2 1 "\d+" eq_refl eq_refl).
Defined.

(** Registering [A] again, under [x] at priority 7, moves its priority
    and keeps the pattern of [B]. *)
Lemma add_frame_witness :
  PyDict.get string_dec "^\w+$"
    (Regex.funcs (Example.after_add "x" Example.A 7 Example.two))
    = Some Example.B /\
  Regex.priority_of Example.fn_eq_dec
    (Example.after_add "x" Example.A 7 Example.two) Example.A = 7%Z.
Proof.
  destruct (add_frame _ Example.fn_eq_dec "x" Example.A 7%Z Example.two)
    as (_ & _ & K & P & _).
  split; [|exact P].
  refine (eq_trans (K "^\w+$" _) _); [discriminate|reflexivity].
Defined.

(** [g1] and [g2] have priority 10 and are met in this order. *)
Lemma equal_priorities_keep_order_witness :
  fst (Example.dispatch "42" Ties.tied) = Return [Ties.g1; Ties.g2; Ties.low] /\
  filter (fun f => (Regex.priority_of Example.fn_eq_dec Ties.tied f =? 10)%Z)
    [Ties.g1; Ties.g2; Ties.low]
  = filter (fun f => (Regex.priority_of Example.fn_eq_dec Ties.tied f =? 10)%Z)
      (Regex.matched PyRe.re_match Ties.tied "42").
Proof.
  assert (D : fst (Example.dispatch "42" Ties.tied)
              = Return [Ties.g1; Ties.g2; Ties.low]) by (vm_compute; reflexivity).
  split; [exact D|].
  exact (equal_priorities_keep_order _ Example.fn_eq_dec PyRe.re_match "42"
           Ties.tied _ D 10%Z).
Defined.

(** The candidates of [42] in [chain]: [boom] is called, and its pattern
    matches. *)
Lemma call_outcome_witness :
  fst (Example.dispatch "42" Example.chain)
    = Return [Example.B; Example.boom; Example.last] /\
  In Example.boom (Regex.matched PyRe.re_match Example.chain "42").
Proof.
  assert (D : fst (Example.dispatch "42" Example.chain)
              = Return [Example.B; Example.boom; Example.last])
    by (vm_compute; reflexivity).
  split; [exact D|].
  apply (proj1 (call_outcome _ Example.fn_eq_dec _ _ PyRe.re_match
                  Example.invoke "42" tt Example.chain _ D) Example.boom).
  vm_compute. right. now left.
Defined.

(** The stored text [^($] is the pattern on which [re.match] raises. *)
Lemma dispatch_raises_only_from_re_match_witness :
  exists r f,
    In (r, f) (PyDict.items (Regex.funcs Example.unbalanced)) /\
    PyRe.re_match r "42" = Raise (ReError "missing ), unterminated subpattern").
Proof.
  refine (dispatch_raises_only_from_re_match _ Example.fn_eq_dec PyRe.re_match
            "42" Example.unbalanced _ _ _).
  - repeat constructor.
  - vm_compute. reflexivity.
Defined.

Section HDFRuns.
Import HDFExample.

Local Abbreviation Create := (@HDF.Create string unit).
Local Abbreviation GetTable := (@HDF.GetTable string unit).
Local Abbreviation Cleanup := (@HDF.Cleanup string unit).
Local Abbreviation heap0 := (HDF.heap w0).

(** The first store has no datapath of its own, the second has [/t]. *)
Lemma get_table_resolves_witness :
  HDF.file_get_table tt 0 (Some "") w0
    = (Raise (OtherError "ValueError" HDF.get_table_message), w0) /\
  HDF.file_get_table tt 1 None w0 = (Return (table 1 "/t"), w0) /\
  HDF.file_get_table tt 0 (Some "/u") w0 = (Return (table 0 "/u"), w0).
Proof.
  destruct (get_table_resolves _ _ tt 0 (Some "") w0 (file "store" None) eq_refl)
    as (H1 & _).
  destruct (get_table_resolves _ _ tt 1 None w0 (file "other" (Some "/t")) eq_refl)
    as (_ & H2 & _).
  destruct (get_table_resolves _ _ tt 0 (Some "/u") w0 (file "store" None) eq_refl)
    as (_ & _ & H3 & _).
  split; [exact (H1 eq_refl eq_refl)|].
  split; [exact (H2 eq_refl "/t" eq_refl)|].
  apply (H3 "/u" eq_refl). discriminate.
Defined.

Lemma append_to_store_datapath_witness :
  HDF.append_object_to_store tt ext 0 "rows" None tt w0
    = (Raise (OtherError "ValueError" HDF.append_message), w0).
Proof.
  exact (proj1 (append_to_store_datapath _ _ tt ext 0 "rows" None tt w0
                  (file "store" None) eq_refl) eq_refl eq_refl).
Defined.


Lemma file_block_closes_new_handle_witness :
  HDF.log (snd (HDF.file_shape ext 0 w0))
    = [Create "store" "store.h5"; HDF.Discover "store+"; Cleanup "store+"].
Proof.
  rewrite (file_block_closes_new_handle _ _ ext 0 w0 (file "store" None)
             "store+" eq_refl eq_refl).
  reflexivity.
Defined.

Lemma table_block_always_cleans_witness :
  HDF.log (snd (HDF.table_getitem ext (table 0 "/t") "x" w0))
    = [Create "store" "store.h5"; GetTable "store+" "/t" tt;
       HDF.GetItem "store+:/t" "x"; Cleanup "store+"].
Proof.
  unfold HDF.table_getitem.
  rewrite (table_block_always_cleans _ _ ext (table 0 "/t")
             (fun ot => HDF.GetItem ot "x") w0 (file "store" None)
             "store+" "store+:/t" eq_refl eq_refl eq_refl).
  reflexivity.
Defined.

(** The table [/missing] cannot be entered: no clean-up is logged. *)
Lemma table_enter_failure_skips_cleanup_witness :
  HDF.drop_hdftable ext (table 0 "/missing") w0
    = (Raise (OtherError "KeyError" "/missing"),
       HDF.mkWorld (HDF.set_rsrc 0 "store+" heap0)
         [Create "store" "store.h5"; GetTable "store+" "/missing" tt]).
Proof.
  unfold HDF.drop_hdftable.
  exact (proj2 (table_enter_failure_skips_cleanup _ _ ext unit
                  (table 0 "/missing") _ w0 (file "store" None) eq_refl)
           "store+" (OtherError "KeyError" "/missing") eq_refl eq_refl).
Defined.

(** The locked store is not removed; the first one is. *)
Lemma drop_hdffile_order_witness :
  HDF.drop_hdffile ext 2 w0
    = (Raise (OtherError "IOError" "locked"),
       HDF.mkWorld heap0 [Cleanup "locked"]) /\
  HDF.drop_hdffile ext 0 w0
    = (Return tt, HDF.mkWorld heap0 [Cleanup "store"; HDF.Remove "store.h5"]).
Proof.
  split.
  - exact (proj1 (drop_hdffile_order _ _ ext 2 w0 (file "locked" None) eq_refl)
             (OtherError "IOError" "locked") eq_refl).
  - exact (proj2 (drop_hdffile_order _ _ ext 0 w0 (file "store" None) eq_refl)
             "None" eq_refl).
Defined.

(** The name [/b] is reported; [///b] is contained. *)
Lemma contains_ignores_leading_slashes_witness :
  fst (HDF.file_contains ext names_of 0 "///b" w0) = Return true.
Proof.
  exact (f_equal fst
           (proj2 (contains_ignores_leading_slashes _ _ ext names_of 0 "/b" w0)
              "shape of store+" ["a"; "/b"; "//c"]
              (snd (HDF.discover_file ext 0 w0)) eq_refl eq_refl
              (or_intror (or_introl eq_refl)) 2)).
Defined.

(** Two tables of the same store: [store++] is cleaned up twice and
    [store+] is not. *)
Lemma append_table_to_table_calls_witness :
  HDF.log (snd (HDF.append_table_to_table ext (table 0 "/t") (table 0 "/u") tt w0))
    = [Create "store" "store.h5"; GetTable "store+" "/t" tt;
       Create "store+" "store.h5"; GetTable "store++" "/u" tt;
       HDF.Append "store+:/t" "store++:/u" None tt;
       Cleanup "store++"; Cleanup "store++"].
Proof.
  rewrite (append_table_to_table_calls _ _ ext (table 0 "/t") (table 0 "/u") tt w0
             (file "store" None) (file "store" None)
             "store+" "store+:/t" "store++" "store++:/u" "None" "None" "None"
             eq_refl eq_refl eq_refl eq_refl eq_refl eq_refl eq_refl eq_refl
             eq_refl).
  reflexivity.
Defined.

End HDFRuns.
